(** * The C API example driver [c_example_lstypec] of libtypec-rs

    A shallow embedding of [c_examples/lstypec.c].  The example walks over
    every connector reported by the library and issues a fixed series of
    queries on each.  The library itself ([libtypec-rs.h] and the Rust code
    behind it) is the environment of the driver: it is taken as a record of
    state-passing functions over an arbitrary world, and every library call
    the driver makes is logged, with its arguments and with what the call
    left in its out-parameters. *)

From Stdlib Require Import String ZArith NArith List Bool Lia.
Import ListNotations.
Local Open Scope Z_scope.

(** ** C data *)

(** Pointers are addresses; [NULL] is address 0. *)
Definition ptr := Z.
Definition NULL : ptr := 0.

(** [ENOTSUP] of <errno.h> (Linux). *)
Definition ENOTSUP : Z := 95.

(** [size_t] is 64 bits wide: conversion to it and arithmetic on it wrap. *)
Definition SIZE_MAX : Z := 2 ^ 64 - 1.
Definition to_size_t (z : Z) : Z := z mod (SIZE_MAX + 1).

(** The enumerations of libtypec-rs.h whose constants the driver passes. *)
Inductive UcsiPdoType := UcsiPdoType_Source | UcsiPdoType_Sink.

Inductive UcsiPdoSourceCapabilitiesType :=
| UcsiPdoSourceCapabilitiesType_CurrentSupportedSourceCapabilities.

Inductive UcsiGetAlternateModesRecipient :=
| UcsiGetAlternateModesRecipient_Connector
| UcsiGetAlternateModesRecipient_Sop
| UcsiGetAlternateModesRecipient_SopPrime.

Inductive PdMessageRecipient := PdMessageRecipient_Sop | PdMessageRecipient_SopPrime.

Inductive PdMessageResponseType := PdMessageResponseType_DiscoverIdentity.

(** [struct UcsiCapability]: the two fields the driver reads.  Both are
    unsigned; [num_connectors] is converted to [size_t] by the loop test. *)
Record UcsiCapability := {
  num_connectors : N;
  pd_version : N
}.

(** [struct PdMessage] is opaque to the driver, which only hands its address
    back to the library: the model keeps the raw words the library left in it. *)
Definition PdMessage := list Z.

(** The three out-parameters of a variable-length query: the buffer, the
    number of elements and the allocated size
    ([out_pdos], [out_npdos], [out_mem_sz]; [alt_modes], [nmodes], [modes_mem_sz]). *)
Record Buf := {
  buf_ptr : ptr;
  buf_count : Z;
  buf_mem_sz : Z
}.

Definition no_buf : Buf := {| buf_ptr := NULL; buf_count := 0; buf_mem_sz := 0 |}.

(** ** The library, as seen from the driver

    Each entry point takes its by-value arguments and the world, and yields
    the status code, the content of its out-parameters after the call, and
    the new world.  [libtypec_rs_get_pdos] also takes the content of
    [out_pdos], [out_npdos], [out_mem_sz] before the call, which the driver
    initialises; the other out-parameters are uninitialised locals, so only
    their content after the call is modelled.  The structures written by
    [libtypec_rs_get_conn_capabilities] and [libtypec_rs_get_cable_properties]
    are never read by the driver and are left out. *)
Record Library (W : Type) := {
  libtypec_rs_new : Z -> W -> (Z * ptr) * W;
  libtypec_rs_get_capabilities : ptr -> W -> (Z * UcsiCapability) * W;
  libtypec_rs_get_conn_capabilities : ptr -> Z -> W -> Z * W;
  libtypec_rs_get_pdos :
    ptr -> Z -> bool -> Z -> Z -> UcsiPdoType -> UcsiPdoSourceCapabilitiesType ->
    N -> Buf -> W -> (Z * Buf) * W;
  libtypec_rs_destroy_pdos : Buf -> W -> W;
  libtypec_rs_get_cable_properties : ptr -> Z -> W -> Z * W;
  libtypec_rs_get_alternate_modes :
    ptr -> UcsiGetAlternateModesRecipient -> Z -> W -> (Z * Buf) * W;
  libtypec_rs_destroy_alternate_modes : Buf -> W -> W;
  libtypec_rs_get_pd_message :
    ptr -> Z -> PdMessageRecipient -> PdMessageResponseType -> W -> (Z * PdMessage) * W;
  libtypec_rs_destroy_pd_message : PdMessage -> W -> W;
  libtypec_rs_destroy : ptr -> W -> W
}.

Arguments libtypec_rs_new {W}.
Arguments libtypec_rs_get_capabilities {W}.
Arguments libtypec_rs_get_conn_capabilities {W}.
Arguments libtypec_rs_get_pdos {W}.
Arguments libtypec_rs_destroy_pdos {W}.
Arguments libtypec_rs_get_cable_properties {W}.
Arguments libtypec_rs_get_alternate_modes {W}.
Arguments libtypec_rs_destroy_alternate_modes {W}.
Arguments libtypec_rs_get_pd_message {W}.
Arguments libtypec_rs_destroy_pd_message {W}.
Arguments libtypec_rs_destroy {W}.

(** ** The log of library calls *)

(** A call: the entry point and its by-value arguments. *)
Inductive call :=
| call_new (backend : Z)
| call_get_capabilities (typec : ptr)
| call_get_conn_capabilities (typec : ptr) (connector_nr : Z)
| call_get_pdos (typec : ptr) (connector_nr : Z) (partner : bool) (offset nr : Z)
    (pdo_type : UcsiPdoType) (src_caps : UcsiPdoSourceCapabilitiesType) (pd_ver : N)
| call_destroy_pdos (pdos : Buf)
| call_get_cable_properties (typec : ptr) (connector_nr : Z)
| call_get_alternate_modes (typec : ptr) (recipient : UcsiGetAlternateModesRecipient)
    (connector_nr : Z)
| call_destroy_alternate_modes (modes : Buf)
| call_get_pd_message (typec : ptr) (connector_nr : Z) (recipient : PdMessageRecipient)
    (response : PdMessageResponseType)
| call_destroy_pd_message (msg : PdMessage)
| call_destroy (typec : ptr).

(** What a call gave back: its status code and its out-parameters. *)
Inductive result :=
| res_void
| res_status (ret : Z)
| res_typec (ret : Z) (typec : ptr)
| res_capabilities (ret : Z) (capabilities : UcsiCapability)
| res_pdos (ret : Z) (before after : Buf)
| res_modes (ret : Z) (modes : Buf)
| res_message (ret : Z) (msg : PdMessage).

Record event := Event { ev_call : call; ev_result : result }.

Definition res_ret (r : result) : option Z :=
  match r with
  | res_void => None
  | res_status ret | res_typec ret _ | res_capabilities ret _
  | res_pdos ret _ _ | res_modes ret _ | res_message ret _ => Some ret
  end.

Definition ev_ret (e : event) : option Z := res_ret (ev_result e).

(** What reaches [stderr]: the text of an [fprintf(stderr, ...)], given by
    its format and arguments, or the diagnostic that a failed [assert] of
    <assert.h> writes before it aborts, given by the text of the expression
    that failed (the file name, line and function that come with it, in a
    format left to the implementation, are not recorded). *)
Inductive output :=
| Printed (fmt : string) (args : list Z)
| AssertionFailed (expr : string).

(** ** The monad of the driver

    The state is the world of the library, the log of calls made so far and
    what was written to [stderr].  A computation either goes on with a value,
    executes a [return] of the C function, is stopped by a failed [assert],
    or (the loop only) runs out of fuel. *)
Record St (W : Type) := {
  world : W;
  calls : list event;
  stderr : list output
}.

Arguments world {W}.
Arguments calls {W}.
Arguments stderr {W}.

Inductive flow (A : Type) :=
| Normal (a : A)
| Returned (ret : Z)
| Aborted
| OutOfFuel.

Arguments Normal {A}.
Arguments Returned {A}.
Arguments Aborted {A}.
Arguments OutOfFuel {A}.

Definition M (W A : Type) := St W -> flow A * St W.

Definition ret {W A} (a : A) : M W A := fun s => (Normal a, s).

Definition bind {W A B} (m : M W A) (f : A -> M W B) : M W B :=
  fun s =>
    match m s with
    | (Normal a, s') => f a s'
    | (Returned r, s') => (Returned r, s')
    | (Aborted, s') => (Aborted, s')
    | (OutOfFuel, s') => (OutOfFuel, s')
    end.

Definition return_ {W A} (r : Z) : M W A := fun s => (Returned r, s).

Definition abort {W A} : M W A := fun s => (Aborted, s).

Definition out_of_fuel {W A} : M W A := fun s => (OutOfFuel, s).

Definition write_stderr {W} (o : output) : M W unit :=
  fun s => (Normal tt,
            {| world := world s; calls := calls s; stderr := stderr s ++ [o] |}).

(** [fprintf(stderr, fmt, args...)]. *)
Definition fprintf_stderr {W} (fmt : string) (args : list Z) : M W unit :=
  write_stderr (Printed fmt args).

(** [assert(p)] of <assert.h> for a pointer [p], [expr] being the text of
    [p]: when [p] is NULL the diagnostic goes to stderr and the program
    aborts. *)
Definition assert {W} (expr : string) (p : ptr) : M W unit :=
  if p =? NULL then bind (write_stderr (AssertionFailed expr)) (fun _ => abort)
  else ret tt.

(** A library call: run it on the world and log it. *)
Definition invoke {W A} (c : call) (f : W -> A * W) (log : A -> result) : M W A :=
  fun s =>
    let (a, w') := f (world s) in
    (Normal a,
     {| world := w'; calls := calls s ++ [Event c (log a)]; stderr := stderr s |}).

Definition invoke_void {W} (c : call) (f : W -> W) : M W unit :=
  invoke c (fun w => (tt, f w)) (fun _ => res_void).

Declare Scope drv_scope.
Delimit Scope drv_scope with drv.
Notation "x <- m ;; k" := (bind m (fun x => k))
  (at level 61, m at next level, right associativity) : drv_scope.
Notation "' p <- m ;; k" := (bind m (fun p => k))
  (at level 61, p pattern, m at next level, right associativity) : drv_scope.
Notation "m ;; k" := (bind m (fun _ => k))
  (at level 61, right associativity) : drv_scope.

(** ** The driver *)

Section Driver.

Context {W : Type}.
Variable lib : Library W.

(** [OsBackends_Sysfs] of libtypec-rs.h, the backend chosen when the
    argument is 0. *)
Variable OsBackends_Sysfs : Z.

Local Open Scope string_scope.
Local Open Scope Z_scope.
Local Open Scope drv_scope.

(** The library entry points as the driver calls them. *)
Definition new_ (backend_type : Z) : M W (Z * ptr) :=
  invoke (call_new backend_type) (libtypec_rs_new lib backend_type)
         (fun '(r, typec) => res_typec r typec).

Definition get_capabilities (typec : ptr) : M W (Z * UcsiCapability) :=
  invoke (call_get_capabilities typec) (libtypec_rs_get_capabilities lib typec)
         (fun '(r, c) => res_capabilities r c).

Definition get_conn_capabilities (typec : ptr) (connector_nr : Z) : M W Z :=
  invoke (call_get_conn_capabilities typec connector_nr)
         (libtypec_rs_get_conn_capabilities lib typec connector_nr) res_status.

Definition get_pdos (typec : ptr) (connector_nr : Z) (partner : bool) (offset nr : Z)
    (pdo_type : UcsiPdoType) (src_caps : UcsiPdoSourceCapabilitiesType)
    (pd_ver : N) (out : Buf) : M W (Z * Buf) :=
  invoke (call_get_pdos typec connector_nr partner offset nr pdo_type src_caps pd_ver)
         (libtypec_rs_get_pdos lib typec connector_nr partner offset nr pdo_type
                               src_caps pd_ver out)
         (fun '(r, out') => res_pdos r out out').

Definition destroy_pdos (out : Buf) : M W unit :=
  invoke_void (call_destroy_pdos out) (libtypec_rs_destroy_pdos lib out).

Definition get_cable_properties (typec : ptr) (connector_nr : Z) : M W Z :=
  invoke (call_get_cable_properties typec connector_nr)
         (libtypec_rs_get_cable_properties lib typec connector_nr) res_status.

Definition get_alternate_modes (typec : ptr)
    (recipient : UcsiGetAlternateModesRecipient) (connector_nr : Z) : M W (Z * Buf) :=
  invoke (call_get_alternate_modes typec recipient connector_nr)
         (libtypec_rs_get_alternate_modes lib typec recipient connector_nr)
         (fun '(r, modes) => res_modes r modes).

Definition destroy_alternate_modes (modes : Buf) : M W unit :=
  invoke_void (call_destroy_alternate_modes modes)
              (libtypec_rs_destroy_alternate_modes lib modes).

Definition get_pd_message (typec : ptr) (connector_nr : Z)
    (recipient : PdMessageRecipient) (response : PdMessageResponseType)
    : M W (Z * PdMessage) :=
  invoke (call_get_pd_message typec connector_nr recipient response)
         (libtypec_rs_get_pd_message lib typec connector_nr recipient response)
         (fun '(r, msg) => res_message r msg).

Definition destroy_pd_message (msg : PdMessage) : M W unit :=
  invoke_void (call_destroy_pd_message msg) (libtypec_rs_destroy_pd_message lib msg).

Definition destroy (typec : ptr) : M W unit :=
  invoke_void (call_destroy typec) (libtypec_rs_destroy lib typec).

(** The body of the [for] loop (lines 42-175) for one connector.  [out] is
    the content of [out_pdos], [out_npdos], [out_mem_sz], which live across
    iterations; the body yields their content at its end. *)
Definition connector_body (typec : ptr) (capabilities : UcsiCapability)
    (connector_nr : Z) (out : Buf) : M W Buf :=
  (* Connector capabilities *)
  r <- get_conn_capabilities typec connector_nr ;;
  (if r <? 0
   then fprintf_stderr "Failed to get connector %zu\n" [connector_nr] ;; return_ r
   else ret tt) ;;
  (* Connector PDOs (Source) *)
  '(r, out) <- get_pdos typec connector_nr false 0 0 UcsiPdoType_Source
      UcsiPdoSourceCapabilitiesType_CurrentSupportedSourceCapabilities
      (pd_version capabilities) out ;;
  (if r =? 0
   then assert "out_pdos" (buf_ptr out) ;; destroy_pdos out
   else if negb (r =? - ENOTSUP)
   then fprintf_stderr "Failed to get the Connector Source PDOs %zu\n" [connector_nr] ;;
        return_ r
   else ret tt) ;;
  (* Connector PDOs (Sink) *)
  '(r, out) <- get_pdos typec connector_nr false 0 0 UcsiPdoType_Sink
      UcsiPdoSourceCapabilitiesType_CurrentSupportedSourceCapabilities
      (pd_version capabilities) out ;;
  (if r =? 0
   then assert "out_pdos" (buf_ptr out) ;; destroy_pdos out
   else if negb (r =? - ENOTSUP)
   then fprintf_stderr "Failed to get the Connector Sink PDOs %zu\n" [connector_nr] ;;
        return_ r
   else ret tt) ;;
  (* Cable properties *)
  r <- get_cable_properties typec connector_nr ;;
  (if r =? 0
   then ret tt
   else if negb (r =? - ENOTSUP)
   then fprintf_stderr "Failed to get cable properties\n" [] ;; return_ r
   else ret tt) ;;
  (* Supported alternate modes *)
  '(r, modes) <- get_alternate_modes typec UcsiGetAlternateModesRecipient_Connector
      connector_nr ;;
  (if r =? 0
   then destroy_alternate_modes modes
   else if negb (r =? - ENOTSUP)
   then fprintf_stderr "Failed to get connector alt modes\n" [] ;; return_ r
   else ret tt) ;;
  (* Cable *)
  '(r, modes) <- get_alternate_modes typec UcsiGetAlternateModesRecipient_SopPrime
      connector_nr ;;
  (if r =? 0
   then destroy_alternate_modes modes
   else if negb (r =? - ENOTSUP)
   then fprintf_stderr "Failed to get SOP' alt modes\n" [] ;; return_ r
   else ret tt) ;;
  '(r, pd_msg) <- get_pd_message typec connector_nr PdMessageRecipient_SopPrime
      PdMessageResponseType_DiscoverIdentity ;;
  (if r =? 0
   then destroy_pd_message pd_msg
   else if negb (r =? - ENOTSUP)
   then fprintf_stderr "Failed to get the DiscoverIdentity PD message for SOP'\n" [] ;;
        return_ r
   else ret tt) ;;
  (* Partner *)
  '(r, modes) <- get_alternate_modes typec UcsiGetAlternateModesRecipient_Sop
      connector_nr ;;
  (if r =? 0
   then destroy_alternate_modes modes
   else if negb (r =? - ENOTSUP)
   then fprintf_stderr "Failed to get SOP alt modes\n" [] ;; return_ r
   else ret tt) ;;
  '(r, pd_msg) <- get_pd_message typec connector_nr PdMessageRecipient_Sop
      PdMessageResponseType_DiscoverIdentity ;;
  (if r =? 0
   then ret tt
   else if negb (r =? - ENOTSUP)
   then fprintf_stderr "Failed to get the DiscoverIdentity PD message for SOP\n" [] ;;
        return_ r
   else ret tt) ;;
  let out := no_buf in
  '(r, out) <- get_pdos typec connector_nr true 0 0 UcsiPdoType_Source
      UcsiPdoSourceCapabilitiesType_CurrentSupportedSourceCapabilities
      (pd_version capabilities) out ;;
  (if r =? 0
   then assert "out_pdos" (buf_ptr out) ;; destroy_pdos out
   else if negb (r =? - ENOTSUP)
   then fprintf_stderr "Failed to get Partner Source PDOs" [] ;; return_ r
   else ret tt) ;;
  let out := no_buf in
  '(r, out) <- get_pdos typec connector_nr true 0 0 UcsiPdoType_Sink
      UcsiPdoSourceCapabilitiesType_CurrentSupportedSourceCapabilities
      (pd_version capabilities) out ;;
  (if r =? 0
   then assert "out_pdos" (buf_ptr out) ;; destroy_pdos out
   else if negb (r =? - ENOTSUP)
   then fprintf_stderr "Failed to get Partner Sink PDOs" [] ;; return_ r
   else ret tt) ;;
  ret out.

(** The [for] loop of line 40, from [connector_nr] on.  Each unit of fuel
    pays for one evaluation of the loop test. *)
Fixpoint connector_loop (fuel : nat) (typec : ptr) (capabilities : UcsiCapability)
    (connector_nr : Z) (out : Buf) : M W Buf :=
  match fuel with
  | O => out_of_fuel
  | S fuel' =>
      if connector_nr <? to_size_t (Z.of_N (num_connectors capabilities))
      then out <- connector_body typec capabilities connector_nr out ;;
           connector_loop fuel' typec capabilities (to_size_t (connector_nr + 1)) out
      else ret out
  end.

(** Fuel for the loop: one test per connector and the last, failing one. *)
Definition loop_fuel (capabilities : UcsiCapability) : nat :=
  S (Z.to_nat (to_size_t (Z.of_N (num_connectors capabilities)))).

Definition c_example_lstypec (backend : Z) : M W unit :=
  let out := no_buf in
  let backend_type := if backend =? 0 then OsBackends_Sysfs else backend in
  '(r, typec) <- new_ backend_type ;;
  (if typec =? NULL
   then fprintf_stderr "Failed to create TypecRs instance\n" [] ;; return_ r
   else ret tt) ;;
  (* Get the capabilities *)
  '(r, capabilities) <- get_capabilities typec ;;
  (if negb (r =? 0)
   then fprintf_stderr "Failed to get capabilities\n" [] ;; return_ r
   else ret tt) ;;
  connector_loop (loop_fuel capabilities) typec capabilities 0 out ;;
  (* Do not forget to destroy the library instance. *)
  destroy typec ;;
  return_ 0.

(** Running the driver from a world [w], with nothing logged yet. *)
Definition start (w : W) : St W := {| world := w; calls := []; stderr := [] |}.

Definition run (backend : Z) (w : W) : flow unit * St W :=
  c_example_lstypec backend (start w).

(** The log of calls of a run, and how the run ended. *)
Definition trace (backend : Z) (w : W) : list event := calls (snd (run backend w)).

Definition outcome (backend : Z) (w : W) : flow unit := fst (run backend w).

End Driver.

(** The backend kind the driver asks for. *)
Definition backend_type (OsBackends_Sysfs backend : Z) : Z :=
  if backend =? 0 then OsBackends_Sysfs else backend.

(** ** The order of the queries

    The program points of the loop body: the eleven queries made on one
    connector, in the order of the source text. *)
Inductive query :=
| ConnCapabilities
| ConnSourcePdos
| ConnSinkPdos
| CableProperties
| ConnAltModes
| CableAltModes
| CableIdentity
| PartnerAltModes
| PartnerIdentity
| PartnerSourcePdos
| PartnerSinkPdos.

Definition connector_queries : list query :=
  [ConnCapabilities; ConnSourcePdos; ConnSinkPdos; CableProperties; ConnAltModes;
   CableAltModes; CableIdentity; PartnerAltModes; PartnerIdentity;
   PartnerSourcePdos; PartnerSinkPdos].

(** The call a query makes on connector [connector_nr]. *)
Definition query_call (typec : ptr) (capabilities : UcsiCapability)
    (connector_nr : Z) (q : query) : call :=
  let pdos partner pdo_type :=
    call_get_pdos typec connector_nr partner 0 0 pdo_type
      UcsiPdoSourceCapabilitiesType_CurrentSupportedSourceCapabilities
      (pd_version capabilities) in
  match q with
  | ConnCapabilities => call_get_conn_capabilities typec connector_nr
  | ConnSourcePdos => pdos false UcsiPdoType_Source
  | ConnSinkPdos => pdos false UcsiPdoType_Sink
  | CableProperties => call_get_cable_properties typec connector_nr
  | ConnAltModes =>
      call_get_alternate_modes typec UcsiGetAlternateModesRecipient_Connector connector_nr
  | CableAltModes =>
      call_get_alternate_modes typec UcsiGetAlternateModesRecipient_SopPrime connector_nr
  | CableIdentity =>
      call_get_pd_message typec connector_nr PdMessageRecipient_SopPrime
        PdMessageResponseType_DiscoverIdentity
  | PartnerAltModes =>
      call_get_alternate_modes typec UcsiGetAlternateModesRecipient_Sop connector_nr
  | PartnerIdentity =>
      call_get_pd_message typec connector_nr PdMessageRecipient_Sop
        PdMessageResponseType_DiscoverIdentity
  | PartnerSourcePdos => pdos true UcsiPdoType_Source
  | PartnerSinkPdos => pdos true UcsiPdoType_Sink
  end.

(** The connectors [first], [first + 1], ..., [first + count - 1]. *)
Fixpoint connector_range (first : Z) (count : nat) : list Z :=
  match count with
  | O => []
  | S count' => first :: connector_range (first + 1) count'
  end.

(** The number of connectors the loop visits. *)
Definition connector_count (capabilities : UcsiCapability) : nat :=
  Z.to_nat (to_size_t (Z.of_N (num_connectors capabilities))).

(** The queries from connector [first] on, [count] connectors in all. *)
Definition schedule_from (first : Z) (count : nat) : list (Z * query) :=
  flat_map (fun c => map (pair c) connector_queries) (connector_range first count).

(** The fixed series of queries for a capability result: connector by
    connector from 0, each with its eleven queries in order. *)
Definition schedule (capabilities : UcsiCapability) : list (Z * query) :=
  schedule_from 0 (connector_count capabilities).


(** Whether the guard after query [q] makes the driver return the code [r]:
    [ret < 0] after the connector capabilities, and [ret != 0] together with
    [ret != -ENOTSUP] after every other query. *)
Definition fatal (q : query) (r : Z) : bool :=
  match q with
  | ConnCapabilities => r <? 0
  | _ => negb (r =? 0) && negb (r =? - ENOTSUP)
  end.

(** Whether the [assert(out_pdos)] after a PDO query fails. *)
Definition assert_fails (res : result) : bool :=
  match res with
  | res_pdos r _ out => (r =? 0) && (buf_ptr out =? NULL)
  | _ => false
  end.

(** The destroy call the driver makes after query [q] gave [res]. *)
Definition release (q : query) (res : result) : list event :=
  match q, res with
  | _, res_pdos r _ out =>
      if r =? 0 then [Event (call_destroy_pdos out) res_void] else []
  | _, res_modes r modes =>
      if r =? 0 then [Event (call_destroy_alternate_modes modes) res_void] else []
  | CableIdentity, res_message r msg =>
      if r =? 0 then [Event (call_destroy_pd_message msg) res_void] else []
  | _, _ => []
  end.

(** The kind of result each query logs. *)
Definition result_kind (q : query) (res : result) : bool :=
  match q, res with
  | (ConnCapabilities | CableProperties), res_status _ => true
  | (ConnSourcePdos | ConnSinkPdos | PartnerSourcePdos | PartnerSinkPdos),
    res_pdos _ _ _ => true
  | (ConnAltModes | CableAltModes | PartnerAltModes), res_modes _ _ => true
  | (CableIdentity | PartnerIdentity), res_message _ _ => true
  | _, _ => false
  end.

(** Classification of calls. *)
Definition connector_of (c : call) : option Z :=
  match c with
  | call_get_conn_capabilities _ i
  | call_get_pdos _ i _ _ _ _ _ _
  | call_get_cable_properties _ i
  | call_get_alternate_modes _ _ i
  | call_get_pd_message _ i _ _ => Some i
  | _ => None
  end.

(** Calls of the loop body: neither construction, capabilities nor the
    destruction of the session. *)
Definition session_call (c : call) : bool :=
  match c with
  | call_new _ | call_get_capabilities _ | call_destroy _ => true
  | _ => false
  end.

Definition is_query (e : event) : bool :=
  match connector_of (ev_call e) with Some _ => true | None => false end.

Definition is_conn_capabilities (c : call) : bool :=
  match c with call_get_conn_capabilities _ _ => true | _ => false end.


Definition is_get_pdos (c : call) : bool :=
  match c with call_get_pdos _ _ _ _ _ _ _ _ => true | _ => false end.

Definition is_partner_pdos (c : call) : bool :=
  match c with call_get_pdos _ _ partner _ _ _ _ _ => partner | _ => false end.

Definition is_destroy_pdos (c : call) : bool :=
  match c with call_destroy_pdos _ => true | _ => false end.

Definition is_get_alternate_modes (c : call) : bool :=
  match c with call_get_alternate_modes _ _ _ => true | _ => false end.



(** The call that comes after a query when the queries [todo] remain: the
    first of them, or the destruction of the session when none is left. *)
Definition next_call (typec : ptr) (capabilities : UcsiCapability)
    (todo : list (Z * query)) : call :=
  match todo with
  | (c, q) :: _ => query_call typec capabilities c q
  | [] => call_destroy typec
  end.

Section Shape.

Context {W : Type}.
Variable lib : Library W.
Variables (typec : ptr) (capabilities : UcsiCapability).

(** A logged PDO query carries what the library really answered, given the
    content of the out-parameters before the call; before a partner query
    (lines 147-149 and 162-164) the driver has reset them. *)
Definition genuine (e : event) : Prop :=
  match e with
  | Event (call_get_pdos h i partner offset nr ty src ver) (res_pdos r before after) =>
      (exists w,
         fst (libtypec_rs_get_pdos lib h i partner offset nr ty src ver before w)
         = (r, after)) /\
      (partner = true -> before = no_buf)
  | _ => True
  end.

(** [e] is the log entry of query [q] on connector [c]. *)
Definition logs (c : Z) (q : query) (e : event) : Prop :=
  ev_call e = query_call typec capabilities c q /\
  result_kind q (ev_result e) = true /\
  genuine e.

(** The log of a series of queries and how it ends: all made ([Normal]),
    cut short by a fatal code ([Returned]) or by the assertion ([Aborted]). *)
Inductive steps : list (Z * query) -> list event -> flow unit -> Prop :=
| steps_nil : steps [] [] (Normal tt)
| steps_fatal c q todo e r :
    logs c q e -> ev_ret e = Some r -> fatal q r = true ->
    steps ((c, q) :: todo) [e] (Returned r)
| steps_abort c q todo e :
    logs c q e -> assert_fails (ev_result e) = true ->
    steps ((c, q) :: todo) [e] Aborted
| steps_cons c q todo e r t o :
    logs c q e -> ev_ret e = Some r -> fatal q r = false ->
    assert_fails (ev_result e) = false ->
    steps todo t o ->
    steps ((c, q) :: todo) (e :: release q (ev_result e) ++ t) o.

(** What follows the log entry [e] of query [q]: nothing when the code is
    fatal or the assertion fails, else the release and the remaining queries. *)
Definition after_query (q : query) (todo : list (Z * query)) (e : event)
    (post : list event) (o : flow unit) : Prop :=
  exists r, ev_ret e = Some r /\
    ((fatal q r = true /\ post = [] /\ o = Returned r) \/
     (assert_fails (ev_result e) = true /\ post = [] /\ o = Aborted) \/
     (fatal q r = false /\ assert_fails (ev_result e) = false /\
      exists t, post = release q (ev_result e) ++ t /\ steps todo t o)).

End Shape.

(** The log of a whole run from the world [w], and its outcome. *)
Inductive run_shape {W} (lib : Library W) (backend_type : Z) (w : W)
  : list event -> flow unit -> Prop :=
| run_no_handle r :
    fst (libtypec_rs_new lib backend_type w) = (r, NULL) ->
    run_shape lib backend_type w
      [Event (call_new backend_type) (res_typec r NULL)] (Returned r)
| run_no_capabilities r typec r' capabilities :
    fst (libtypec_rs_new lib backend_type w) = (r, typec) ->
    typec <> NULL -> r' <> 0 ->
    run_shape lib backend_type w
      [Event (call_new backend_type) (res_typec r typec);
       Event (call_get_capabilities typec) (res_capabilities r' capabilities)]
      (Returned r')
| run_stopped r typec capabilities t o :
    fst (libtypec_rs_new lib backend_type w) = (r, typec) ->
    typec <> NULL -> o <> Normal tt ->
    steps lib typec capabilities (schedule capabilities) t o ->
    run_shape lib backend_type w
      (Event (call_new backend_type) (res_typec r typec)
       :: Event (call_get_capabilities typec) (res_capabilities 0 capabilities)
       :: t) o
| run_finished r typec capabilities t :
    fst (libtypec_rs_new lib backend_type w) = (r, typec) ->
    typec <> NULL ->
    steps lib typec capabilities (schedule capabilities) t (Normal tt) ->
    run_shape lib backend_type w
      (Event (call_new backend_type) (res_typec r typec)
       :: Event (call_get_capabilities typec) (res_capabilities 0 capabilities)
       :: t ++ [Event (call_destroy typec) res_void])
      (Returned 0).

(** ** The boundary contract of the library *)

(** Modelled from the spec: the error taxonomy of the library (section 7),
    which is not under src/.  A failed call reports the negated POSIX error
    number; [Unsupported] is the dedicated not-supported code [-ENOTSUP]. *)
Inductive Error := Unsupported | TransportError | ProtocolError | InvalidArgument.

Definition EIO : Z := 5.
Definition EINVAL : Z := 22.
Definition EPROTO : Z := 71.

Definition status_code (e : Error) : Z :=
  match e with
  | Unsupported => - ENOTSUP
  | TransportError => - EIO
  | ProtocolError => - EPROTO
  | InvalidArgument => - EINVAL
  end.

(** Modelled from the spec: a decoded power data object (section 3); the
    decoder is not under src/. *)
Inductive Pdo :=
| FixedSupply (mV mA : Z)
| Battery (min_mV max_mV mW : Z)
| VariableSupply (min_mV max_mV mA : Z)
| ProgrammableSupply (min_mV max_mV mA : Z).

(** Modelled from the spec: the boundary function [libtypec_rs_get_pdos] of
    the library, which is not under src/ (sections 3 and 4.6).  The session
    either decodes the full set or fails.  On success one buffer sized to the
    decoded element count is allocated and the three out-parameters receive
    its handle, the element count and the allocated size, with status 0; on
    failure the status is the error's code and the out-parameters keep the
    content they had. *)
Definition spec_get_pdos (answer : Error + list Pdo) (handle : positive)
    (elem_sz : Z) (out : Buf) : Z * Buf :=
  match answer with
  | inl e => (status_code e, out)
  | inr pdos =>
      (0, {| buf_ptr := Z.pos handle;
             buf_count := Z.of_nat (List.length pdos);
             buf_mem_sz := Z.of_nat (List.length pdos) * elem_sz |})
  end.

(** A library whose [libtypec_rs_get_pdos] follows that contract, whatever
    the session answers and whichever buffer is allocated. *)
Definition pdos_conformant {W} (lib : Library W) : Prop :=
  forall typec i partner offset nr ty src ver out w,
    exists answer handle elem_sz,
      fst (libtypec_rs_get_pdos lib typec i partner offset nr ty src ver out w)
      = spec_get_pdos answer handle elem_sz out.

(** ** Fixture libraries

    A fixture answers each query from a table.  Its world is the next free
    buffer handle; every successful variable-length query takes one. *)
Record Fixture := {
  fx_new : Z * ptr;
  fx_capabilities : Z * UcsiCapability;
  fx_conn_capabilities : Z -> Z;
  fx_pdos : Z -> bool -> UcsiPdoType -> Error + list Pdo;
  fx_cable_properties : Z -> Z;
  fx_alternate_modes : UcsiGetAlternateModesRecipient -> Z -> Error + nat;
  fx_pd_message : Z -> PdMessageRecipient -> Z * PdMessage
}.

Definition fixture_library (fx : Fixture) : Library positive := {|
  libtypec_rs_new := fun _ w => (fx_new fx, w);
  libtypec_rs_get_capabilities := fun _ w => (fx_capabilities fx, w);
  libtypec_rs_get_conn_capabilities := fun _ i w => (fx_conn_capabilities fx i, w);
  libtypec_rs_get_pdos := fun _ i partner _ _ ty _ _ out w =>
    (spec_get_pdos (fx_pdos fx i partner ty) w 8 out,
     match fx_pdos fx i partner ty with inl _ => w | inr _ => Pos.succ w end);
  libtypec_rs_destroy_pdos := fun _ w => w;
  libtypec_rs_get_cable_properties := fun _ i w => (fx_cable_properties fx i, w);
  libtypec_rs_get_alternate_modes := fun _ recipient i w =>
    match fx_alternate_modes fx recipient i with
    | inl e => ((status_code e, no_buf), w)
    | inr n =>
        ((0, {| buf_ptr := Z.pos w; buf_count := Z.of_nat n;
                buf_mem_sz := Z.of_nat n * 16 |}), Pos.succ w)
    end;
  libtypec_rs_destroy_alternate_modes := fun _ w => w;
  libtypec_rs_get_pd_message := fun _ i recipient _ w => (fx_pd_message fx i recipient, w);
  libtypec_rs_destroy_pd_message := fun _ w => w;
  libtypec_rs_destroy := fun _ w => w
|}.

(** Two connectors, PD 3.1; the local source capabilities of each connector
    are 5 V / 3 A and 9 V / 2 A, a partner advertises 5 V / 3 A, and whatever
    else is asked is answered or unsupported. *)
Definition two_ports : Fixture := {|
  fx_new := (0, 4096);
  fx_capabilities := (0, {| num_connectors := 2; pd_version := 769 |});
  fx_conn_capabilities := fun _ => 0;
  fx_pdos := fun _ partner ty =>
    match partner, ty with
    | false, UcsiPdoType_Source => inr [FixedSupply 5000 3000; FixedSupply 9000 2000]
    | true, UcsiPdoType_Source => inr [FixedSupply 5000 3000]
    | _, UcsiPdoType_Sink => inl Unsupported
    end;
  fx_cable_properties := fun i => if i =? 0 then 0 else - ENOTSUP;
  fx_alternate_modes := fun recipient _ =>
    match recipient with
    | UcsiGetAlternateModesRecipient_Connector => inr 1%nat
    | UcsiGetAlternateModesRecipient_Sop => inr 0%nat
    | UcsiGetAlternateModesRecipient_SopPrime => inl Unsupported
    end;
  fx_pd_message := fun _ recipient =>
    match recipient with
    | PdMessageRecipient_SopPrime => (0, [4279238656; 0; 1])
    | PdMessageRecipient_Sop => (0, [4279238657; 0; 2])
    end
|}.

(** One connector whose partner sink capabilities cannot be read: the
    transport fails. *)
Definition broken_transport : Fixture := {|
  fx_new := fx_new two_ports;
  fx_capabilities := (0, {| num_connectors := 1; pd_version := 769 |});
  fx_conn_capabilities := fx_conn_capabilities two_ports;
  fx_pdos := fun i partner ty =>
    match partner, ty with
    | true, UcsiPdoType_Sink => inl TransportError
    | _, _ => fx_pdos two_ports i partner ty
    end;
  fx_cable_properties := fx_cable_properties two_ports;
  fx_alternate_modes := fx_alternate_modes two_ports;
  fx_pd_message := fx_pd_message two_ports
|}.

(** [two_ports] with another answer to the connector capabilities. *)
Definition with_conn_capabilities (r : Z) : Fixture := {|
  fx_new := fx_new two_ports;
  fx_capabilities := fx_capabilities two_ports;
  fx_conn_capabilities := fun _ => r;
  fx_pdos := fx_pdos two_ports;
  fx_cable_properties := fx_cable_properties two_ports;
  fx_alternate_modes := fx_alternate_modes two_ports;
  fx_pd_message := fx_pd_message two_ports
|}.

(** [two_ports] with another answer to the construction. *)
Definition with_new (r : Z) (typec : ptr) : Fixture := {|
  fx_new := (r, typec);
  fx_capabilities := fx_capabilities two_ports;
  fx_conn_capabilities := fx_conn_capabilities two_ports;
  fx_pdos := fx_pdos two_ports;
  fx_cable_properties := fx_cable_properties two_ports;
  fx_alternate_modes := fx_alternate_modes two_ports;
  fx_pd_message := fx_pd_message two_ports
|}.

(** The backend constants used with the fixtures. *)
Definition Sysfs : Z := 0.
Definition fixture_trace (fx : Fixture) : list event :=
  trace (fixture_library fx) Sysfs 0 1%positive.
Definition fixture_outcome (fx : Fixture) : flow unit :=
  outcome (fixture_library fx) Sysfs 0 1%positive.

(** Entries of the logs of the fixtures. *)
Definition fixture_pdos_call (i : Z) (partner : bool) (ty : UcsiPdoType) : call :=
  call_get_pdos 4096 i partner 0 0 ty
    UcsiPdoSourceCapabilitiesType_CurrentSupportedSourceCapabilities 769.

Definition first_buffer : Buf := {| buf_ptr := 1; buf_count := 2; buf_mem_sz := 16 |}.

(** The local source capabilities of connector 0: two PDOs in buffer 1. *)
Definition source_answer : event :=
  Event (fixture_pdos_call 0 false UcsiPdoType_Source) (res_pdos 0 no_buf first_buffer).

(** The local sink capabilities of connector 0: not supported. *)
Definition sink_answer : event :=
  Event (fixture_pdos_call 0 false UcsiPdoType_Sink)
        (res_pdos (- ENOTSUP) first_buffer first_buffer).

(** The partner sink capabilities of connector 0 over the broken transport. *)
Definition transport_failure : event :=
  Event (fixture_pdos_call 0 true UcsiPdoType_Sink) (res_pdos (- EIO) no_buf no_buf).

(** The identity of the cable plug of connector 1. *)
Definition cable_identity : event :=
  Event (call_get_pd_message 4096 1 PdMessageRecipient_SopPrime
                             PdMessageResponseType_DiscoverIdentity)
        (res_message 0 [4279238656; 0; 1]).

(** The identity of the partner of connector 0. *)
Definition partner_identity : event :=
  Event (call_get_pd_message 4096 0 PdMessageRecipient_Sop
                             PdMessageResponseType_DiscoverIdentity)
        (res_message 0 [4279238657; 0; 2]).

(** Whether a call hands the message [msg] to [libtypec_rs_destroy_pd_message]. *)
Definition destroys_message (msg : PdMessage) (e : event) : bool :=
  match ev_call e with
  | call_destroy_pd_message m => if list_eq_dec Z.eq_dec m msg then true else false
  | _ => false
  end.

(** The connector capabilities of connector 0 answered with the code [r]. *)
Definition conn_answer (r : Z) : event :=
  Event (call_get_conn_capabilities 4096 0) (res_status r).

(** ** Four claims in the words of the specification

    The driver meets none of them against every conceivable library; it
    meets the second and the fourth against every library that keeps to the
    status codes of the specification. *)

(** No per-connector query that returns [-ENOTSUP] is the last call. *)
Definition unsupported_never_ends_run {W} (lib : Library W) (sysfs backend : Z) (w : W)
  : Prop :=
  forall pre e post,
    trace lib sysfs backend w = pre ++ e :: post ->
    is_query e = true ->
    ev_ret e = Some (- ENOTSUP) ->
    exists e' post', post = e' :: post'.

(** Every per-connector query that returns a code other than 0 and [-ENOTSUP]
    is the last call, and the driver returns its code. *)
Definition other_codes_end_run {W} (lib : Library W) (sysfs backend : Z) (w : W)
  : Prop :=
  forall pre e post r,
    trace lib sysfs backend w = pre ++ e :: post ->
    is_query e = true ->
    ev_ret e = Some r ->
    r <> 0 -> r <> - ENOTSUP ->
    post = [] /\ outcome lib sysfs backend w = Returned r.


(** The session is destroyed if and only if the driver returns 0. *)
Definition destroyed_iff_returns_zero {W} (lib : Library W) (sysfs backend : Z) (w : W)
  : Prop :=
  (exists e h, In e (trace lib sysfs backend w) /\ ev_call e = call_destroy h) <->
  outcome lib sysfs backend w = Returned 0.


(** ** Further vocabulary for the log *)

(** The session handle a call is made on, for the calls that take one. *)
Definition handle_of (c : call) : option ptr :=
  match c with
  | call_get_capabilities h
  | call_get_conn_capabilities h _
  | call_get_pdos h _ _ _ _ _ _ _
  | call_get_cable_properties h _
  | call_get_alternate_modes h _ _
  | call_get_pd_message h _ _ _
  | call_destroy h => Some h
  | _ => None
  end.

(** Whether the code [r] lets the driver go on after the call [c]: not
    negative after the connector capabilities, 0 or [-ENOTSUP] after any
    other query. *)
Definition tolerated (c : call) (r : Z) : Prop :=
  if is_conn_capabilities c then 0 <= r else r = 0 \/ r = - ENOTSUP.

(** What [m] adds to stderr: nothing while it goes on, one [fprintf] text
    before it executes a [return], the diagnostic of [assert(out_pdos)] when
    it stops there. *)
Definition reports {W A} (m : M W A) : Prop :=
  forall s,
    match m s with
    | (Returned _, s') => exists fmt args, stderr s' = stderr s ++ [Printed fmt args]
    | (Aborted, s') => stderr s' = stderr s ++ [AssertionFailed "out_pdos"]
    | (_, s') => stderr s' = stderr s
    end.

(** The content of the three PDO out-parameters that each
    [libtypec_rs_get_pdos] call of a log was handed, [last] being what the
    call before left (or their initial content): a partner query is handed
    NULL, 0, 0, any other query what the previous PDO query left. *)
Fixpoint pdos_inputs (last : Buf) (t : list event) : Prop :=
  match t with
  | [] => True
  | e :: t' =>
      match ev_call e, ev_result e with
      | call_get_pdos _ _ partner _ _ _ _ _, res_pdos _ before after =>
          before = (if partner then no_buf else last) /\ pdos_inputs after t'
      | _, _ => pdos_inputs last t'
      end
  end.

(** What the last PDO query of a log left in the out-parameters. *)
Fixpoint pdos_left (last : Buf) (t : list event) : Buf :=
  match t with
  | [] => last
  | e :: t' =>
      match ev_call e, ev_result e with
      | call_get_pdos _ _ _ _ _ _ _ _, res_pdos _ _ after => pdos_left after t'
      | _, _ => pdos_left last t'
      end
  end.

(** [m], started when the last PDO query left [out], hands every PDO query
    the right content and, when it goes on with [a], the last PDO query has
    left [out' a]. *)
Definition hands_on {W A} (m : M W A) (out : Buf) (out' : A -> Buf) : Prop :=
  forall s,
    exists t,
      calls (snd (m s)) = calls s ++ t /\
      pdos_inputs out t /\
      forall a, fst (m s) = Normal a -> pdos_left out t = out' a.

(** ** Further fixtures *)

(** [two_ports] with another answer to the capability query. *)
Definition with_capabilities (r : Z) (caps : UcsiCapability) : Fixture := {|
  fx_new := fx_new two_ports;
  fx_capabilities := (r, caps);
  fx_conn_capabilities := fx_conn_capabilities two_ports;
  fx_pdos := fx_pdos two_ports;
  fx_cable_properties := fx_cable_properties two_ports;
  fx_alternate_modes := fx_alternate_modes two_ports;
  fx_pd_message := fx_pd_message two_ports
|}.

Definition two_ports_capabilities : UcsiCapability :=
  {| num_connectors := 2; pd_version := 769 |}.

Definition no_ports_capabilities : UcsiCapability :=
  {| num_connectors := 0; pd_version := 769 |}.

(** The library of [two_ports], except that every PDO query reports success
    and leaves the out-parameters alone. *)
Definition careless_library : Library positive :=
  let base := fixture_library two_ports in {|
  libtypec_rs_new := libtypec_rs_new base;
  libtypec_rs_get_capabilities := libtypec_rs_get_capabilities base;
  libtypec_rs_get_conn_capabilities := libtypec_rs_get_conn_capabilities base;
  libtypec_rs_get_pdos := fun _ _ _ _ _ _ _ _ out w => ((0, out), w);
  libtypec_rs_destroy_pdos := libtypec_rs_destroy_pdos base;
  libtypec_rs_get_cable_properties := libtypec_rs_get_cable_properties base;
  libtypec_rs_get_alternate_modes := libtypec_rs_get_alternate_modes base;
  libtypec_rs_destroy_alternate_modes := libtypec_rs_destroy_alternate_modes base;
  libtypec_rs_get_pd_message := libtypec_rs_get_pd_message base;
  libtypec_rs_destroy_pd_message := libtypec_rs_destroy_pd_message base;
  libtypec_rs_destroy := libtypec_rs_destroy base
|}.

(** Further entries of the logs of the fixtures. *)
Definition capabilities_answer (r : Z) (caps : UcsiCapability) : event :=
  Event (call_get_capabilities 4096) (res_capabilities r caps).

Definition session_destroyed : event := Event (call_destroy 4096) res_void.

Definition first_buffer_destroyed : event :=
  Event (call_destroy_pdos first_buffer) res_void.

Definition second_buffer : Buf := {| buf_ptr := 2; buf_count := 1; buf_mem_sz := 16 |}.

Definition second_buffer_destroyed : event :=
  Event (call_destroy_alternate_modes second_buffer) res_void.

Definition cable_identity_destroyed : event :=
  Event (call_destroy_pd_message [4279238656; 0; 1]) res_void.

(** ** Specifications of driver computations *)

(** How a computation ended, without its value. *)
Definition forget {A} (fl : flow A) : flow unit :=
  match fl with
  | Normal _ => Normal tt
  | Returned r => Returned r
  | Aborted => Aborted
  | OutOfFuel => OutOfFuel
  end.

(** [m] appends to the log a series of calls that, with the way [m] ends,
    satisfies [S]. *)
Definition emits {W A} (m : M W A) (S : flow A -> list event -> Prop) : Prop :=
  forall s, exists t, calls (snd (m s)) = calls s ++ t /\ S (fst (m s)) t.

(** [m] makes the queries [todo], as far as it gets. *)
Definition performs {W A} (lib : Library W) (typec : ptr) (capabilities : UcsiCapability)
    (m : M W A) (todo : list (Z * query)) : Prop :=
  emits m (fun fl t => steps lib typec capabilities todo t (forget fl)).

(** [m] is what follows the call logged as [e] for query [q] on connector [c]. *)
Definition performs_after {W A} (lib : Library W) (typec : ptr)
    (capabilities : UcsiCapability) (e : event) (m : M W A)
    (c : Z) (q : query) (todo : list (Z * query)) : Prop :=
  emits m (fun fl t => steps lib typec capabilities ((c, q) :: todo) (e :: t) (forget fl)).

(** [g] is the guard after query [q] gave [res]: it logs the release and goes
    on, or returns the fatal code, or stops at the assertion. *)
Definition guards {W} (q : query) (res : result) (g : M W unit) : Prop :=
  forall s,
    match g s with
    | (Normal _, s') =>
        calls s' = calls s ++ release q res /\ assert_fails res = false /\
        exists r, res_ret res = Some r /\ fatal q r = false
    | (Returned r, s') =>
        calls s' = calls s /\ res_ret res = Some r /\ fatal q r = true
    | (Aborted, s') => calls s' = calls s /\ assert_fails res = true
    | (OutOfFuel, _) => False
    end.

(** ** The driver follows the schedule *)

Section Adequacy.

Context {W : Type}.
Variable lib : Library W.
Variables (typec : ptr) (capabilities : UcsiCapability).

Local Abbreviation steps' := (steps lib typec capabilities).
Local Abbreviation performs' := (performs lib typec capabilities).

Lemma steps_app_normal s1 t1 s2 t2 o :
  steps' s1 t1 (Normal tt) -> steps' s2 t2 o -> steps' (s1 ++ s2) (t1 ++ t2) o.
Proof.
  intros H1 H2. remember (Normal tt) as o1 eqn:Ho1.
  induction H1; try discriminate; simpl; auto.
  rewrite <- app_assoc. eapply steps_cons; eauto.
Qed.

Lemma steps_app_stopped s1 t1 s2 o :
  steps' s1 t1 o -> o <> Normal tt -> steps' (s1 ++ s2) t1 o.
Proof.
  induction 1; intros Hne; simpl.
  - congruence.
  - eapply steps_fatal; eauto.
  - eapply steps_abort; eauto.
  - eapply steps_cons; eauto.
Qed.

Lemma steps_not_out_of_fuel s t : ~ steps' s t OutOfFuel.
Proof.
  intros H. remember OutOfFuel as o eqn:Ho. induction H; try discriminate; auto.
Qed.

Lemma performs_ret {A} (a : A) : performs' (ret (W := W) a) [].
Proof.
  intros s. exists []. simpl. rewrite app_nil_r. split; [reflexivity | constructor].
Qed.

Lemma performs_bind {A B} (m : M W A) (k : A -> M W B) s1 s2 :
  performs' m s1 -> (forall a, performs' (k a) s2) -> performs' (bind m k) (s1 ++ s2).
Proof.
  intros Hm Hk s. destruct (Hm s) as (t1 & E1 & S1). unfold bind.
  destruct (m s) as [[a | r | | ] s'] eqn:Em; simpl in *.
  - destruct (Hk a s') as (t2 & E2 & S2).
    exists (t1 ++ t2). rewrite E2, E1, app_assoc. split; [reflexivity |].
    eapply steps_app_normal; eauto.
  - exists t1. split; [assumption |]. apply steps_app_stopped; [assumption | discriminate].
  - exists t1. split; [assumption |]. apply steps_app_stopped; [assumption | discriminate].
  - exfalso. eapply steps_not_out_of_fuel; eauto.
Qed.

Lemma performs_invoke {A B} (cl : call) (f : W -> A * W) (log : A -> result)
    (k : A -> M W B) c q todo :
  (forall a w, fst (f w) = a ->
     performs_after lib typec capabilities (Event cl (log a)) (k a) c q todo) ->
  performs' (bind (invoke cl f log) k) ((c, q) :: todo).
Proof.
  intros H s. unfold bind, invoke.
  destruct (f (world s)) as [a w'] eqn:Ef.
  specialize (H a (world s)). rewrite Ef in H. specialize (H eq_refl).
  match goal with |- context [k a ?s1] => destruct (H s1) as (t & E & S) end.
  simpl in E. exists (Event cl (log a) :: t). split.
  - rewrite E, <- app_assoc. reflexivity.
  - exact S.
Qed.

Lemma performs_guard {B} (e : event) (g : M W unit) (rest : M W B) c q todo :
  logs lib typec capabilities c q e ->
  guards q (ev_result e) g ->
  performs' rest todo ->
  performs_after lib typec capabilities e (bind g (fun _ => rest)) c q todo.
Proof.
  intros Hl Hg Hr s. specialize (Hg s). unfold bind.
  destruct (g s) as [[[] | r | | ] s'] eqn:Eg; simpl.
  - destruct Hg as (E & Has & r & Hret & Hf).
    destruct (Hr s') as (t & E' & S).
    exists (release q (ev_result e) ++ t). split.
    + rewrite E', E, app_assoc. reflexivity.
    + eapply steps_cons; eauto.
  - destruct Hg as (E & Hret & Hf). exists []. rewrite app_nil_r. split; [assumption |].
    eapply steps_fatal; eauto.
  - destruct Hg as (E & Has). exists []. rewrite app_nil_r. split; [assumption |].
    eapply steps_abort; eauto.
  - contradiction.
Qed.

(** The guards of the loop body. *)
Ltac guard_cases :=
  intros s; unfold guards, bind, assert, abort, ret, return_, fprintf_stderr, write_stderr,
    destroy_pdos, destroy_alternate_modes, destroy_pd_message, invoke_void, invoke,
    fatal, assert_fails, release, NULL; simpl;
  repeat match goal with
         | |- context [if ?b then _ else _] => destruct b eqn:?; simpl
         end;
  repeat split; try reflexivity; try (rewrite app_nil_r; reflexivity);
  try (eexists; split; [reflexivity |]);
  repeat match goal with
         | H : (_ =? _) = _ |- _ => rewrite H
         | H : (_ <? _) = _ |- _ => rewrite H
         end;
  try reflexivity; try assumption; try discriminate.

Ltac query_step :=
  apply performs_invoke; intros ? ? ?;
  match goal with
  | a : (Z * _)%type |- _ => destruct a as [? ?]
  | _ => idtac
  end;
  apply performs_guard;
  [ repeat split; simpl; intros; eauto; discriminate | guard_cases | ].

Lemma connector_body_performs c out :
  performs' (connector_body lib typec capabilities c out)
            (map (pair c) connector_queries).
Proof.
  unfold connector_body, get_conn_capabilities, get_pdos, get_cable_properties,
    get_alternate_modes, get_pd_message.
  simpl map.
  do 11 query_step.
  apply performs_ret.
Qed.

Lemma to_size_t_range z : 0 <= to_size_t z <= SIZE_MAX.
Proof.
  unfold to_size_t, SIZE_MAX.
  pose proof (Z.mod_pos_bound z (2 ^ 64 - 1 + 1) ltac:(reflexivity)). lia.
Qed.

Lemma to_size_t_small z : 0 <= z <= SIZE_MAX -> to_size_t z = z.
Proof.
  unfold to_size_t, SIZE_MAX. intros H. apply Z.mod_small. lia.
Qed.

Lemma connector_loop_performs count :
  forall fuel c out,
    (count < fuel)%nat -> 0 <= c ->
    c + Z.of_nat count = to_size_t (Z.of_N (num_connectors capabilities)) ->
    performs' (connector_loop lib fuel typec capabilities c out)
              (schedule_from c count).
Proof.
  pose proof (to_size_t_range (Z.of_N (num_connectors capabilities))) as Hn.
  induction count as [| count IH]; intros fuel c out Hf Hc Hsum;
    (destruct fuel as [| fuel]; [lia |]); simpl connector_loop.
  - replace (c <? _) with false by (symmetry; apply Z.ltb_ge; lia).
    apply performs_ret.
  - replace (c <? _) with true by (symmetry; apply Z.ltb_lt; lia).
    change (schedule_from c (S count))
      with (map (pair c) connector_queries ++ schedule_from (c + 1) count).
    apply performs_bind; [apply connector_body_performs |].
    intros out'. rewrite to_size_t_small by lia.
    apply IH; lia.
Qed.

End Adequacy.

(** ** What the schedule tells about a log *)

Section StepsFacts.

Context {W : Type}.
Variable lib : Library W.
Variables (typec : ptr) (capabilities : UcsiCapability).

Local Abbreviation steps' := (steps lib typec capabilities).
Local Abbreviation logs' := (logs lib typec capabilities).

Lemma connector_of_query_call c q :
  connector_of (query_call typec capabilities c q) = Some c.
Proof. destruct q; reflexivity. Qed.

Lemma logs_is_query c q e : logs' c q e -> is_query e = true.
Proof.
  intros (Hc & _). unfold is_query. rewrite Hc, connector_of_query_call. reflexivity.
Qed.

Lemma release_not_query q res : Forall (fun e => is_query e = false) (release q res).
Proof.
  destruct q, res; simpl; try constructor;
    match goal with
    | |- context [if ?b then _ else _] => destruct b
    end; repeat constructor.
Qed.

Lemma release_length q res : (length (release q res) <= 1)%nat.
Proof.
  destruct q, res; simpl; try lia;
    match goal with
    | |- context [if ?b then _ else _] => destruct b
    end; simpl; lia.
Qed.

Lemma assert_fails_ret res : assert_fails res = true -> exists r, res_ret res = Some r.
Proof. destruct res; simpl; try discriminate. eauto. Qed.

(** A query entry found past a release lies in what follows the release. *)
Lemma split_past_release q res t pre e post :
  release q res ++ t = pre ++ e :: post -> is_query e = true ->
  exists pre', pre = release q res ++ pre' /\ t = pre' ++ e :: post.
Proof.
  intros Heq Hq. pose proof (release_not_query q res) as Hn.
  pose proof (release_length q res) as Hl.
  destruct (release q res) as [| x [| y l]]; simpl in *; try lia.
  - exists pre. auto.
  - inversion Hn as [| ? ? Hx _]; subst.
    destruct pre as [| p pre]; simpl in Heq; inversion Heq; subst.
    + congruence.
    + exists pre. auto.
Qed.

(** Every query entry of a log sits at a position of the schedule, and the
    log goes on as the guard of that query decides. *)
Lemma steps_query_inv sched t o :
  steps' sched t o ->
  forall pre e post, t = pre ++ e :: post -> is_query e = true ->
  exists done c q todo,
    sched = done ++ (c, q) :: todo /\ logs' c q e /\
    after_query lib typec capabilities q todo e post o.
Proof.
  induction 1 as [| c q todo e0 r Hl Hr Hf | c q todo e0 Hl Ha
                  | c q todo e0 r t o Hl Hr Hf Ha Hs IH];
    intros pre e post Heq Hq.
  - destruct pre; discriminate.
  - destruct pre as [| p [| p' pre]]; inversion Heq; subst.
    exists [], c, q, todo. split; [reflexivity | split; [assumption |]].
    exists r. split; [assumption |]. left. auto.
  - destruct pre as [| p [| p' pre]]; inversion Heq; subst.
    exists [], c, q, todo. split; [reflexivity | split; [assumption |]].
    destruct (assert_fails_ret _ Ha) as (r & Hr).
    exists r. split; [assumption |]. right. left. auto.
  - destruct pre as [| p pre]; simpl in Heq; inversion Heq; subst.
    + exists [], c, q, todo. split; [reflexivity | split; [assumption |]].
      exists r. split; [assumption |]. right. right. eauto.
    + match goal with H : _ ++ _ = _ ++ _ :: _ |- _ =>
        destruct (split_past_release _ _ _ _ _ _ H Hq) as (pre' & -> & Ht) end.
      destruct (IH _ _ _ Ht Hq) as (done & c' & q' & todo' & -> & Hl' & Haft).
      exists ((c, q) :: done), c', q', todo'.
      split; [reflexivity | split; assumption].
Qed.

(** A log of remaining queries starts with the call of the first of them. *)
Lemma steps_head c q todo t o :
  steps' ((c, q) :: todo) t o ->
  exists e t', t = e :: t' /\ logs' c q e.
Proof. inversion 1; subst; eauto. Qed.

Lemma steps_nil_inv t o : steps' [] t o -> t = [] /\ o = Normal tt.
Proof. inversion 1; auto. Qed.

(** A fatal code is never 0. *)
Lemma fatal_nonzero q r : fatal q r = true -> r <> 0.
Proof.
  destruct q; simpl; intros H ->; try discriminate.
Qed.

Lemma release_not_session q res :
  Forall (fun e => session_call (ev_call e) = false) (release q res).
Proof.
  destruct q, res; simpl; try constructor;
    match goal with
    | |- context [if ?b then _ else _] => destruct b
    end; repeat constructor.
Qed.

Lemma steps_not_session sched t o :
  steps' sched t o -> Forall (fun e => session_call (ev_call e) = false) t.
Proof.
  assert (Hq : forall c q e, logs' c q e -> session_call (ev_call e) = false).
  { intros c q e (Hc & _). rewrite Hc. destruct q; reflexivity. }
  induction 1; repeat constructor; eauto.
  apply Forall_app. split; [apply release_not_session | assumption].
Qed.

(** A stopped log does not end with status 0. *)
Lemma steps_returned_nonzero sched t r : steps' sched t (Returned r) -> r <> 0.
Proof.
  intros H. remember (Returned r) as o eqn:Ho.
  induction H; try discriminate; auto.
  inversion Ho; subst. eapply fatal_nonzero; eauto.
Qed.

(** The queries of a log, in order, are the first entries of the schedule,
    and all of them when the log is complete. *)
Lemma steps_prefix sched t o :
  steps' sched t o ->
  exists done todo,
    sched = done ++ todo /\
    map ev_call (filter is_query t)
    = map (fun cq => query_call typec capabilities (fst cq) (snd cq)) done /\
    (o = Normal tt -> todo = []).
Proof.
  assert (Hrel : forall q res l, filter is_query (release q res ++ l) = filter is_query l).
  { intros q res l. rewrite filter_app.
    pose proof (release_not_query q res) as Hn.
    induction Hn as [| x l' Hx _ IHl]; simpl; [reflexivity |].
    rewrite Hx. assumption. }
  induction 1 as [| c q todo e0 r Hl Hr Hf | c q todo e0 Hl Ha
                  | c q todo e0 r t o Hl Hr Hf Ha Hs IH].
  - exists [], []. repeat split.
  - exists [(c, q)], todo. simpl. rewrite (logs_is_query _ _ _ Hl). simpl.
    destruct Hl as (-> & _). repeat split. discriminate.
  - exists [(c, q)], todo. simpl. rewrite (logs_is_query _ _ _ Hl). simpl.
    destruct Hl as (-> & _). repeat split. discriminate.
  - destruct IH as (done & todo' & -> & Hm & Hn).
    exists ((c, q) :: done), todo'. simpl. rewrite (logs_is_query _ _ _ Hl). simpl.
    rewrite Hrel, Hm. destruct Hl as (-> & _). repeat split. assumption.
Qed.

End StepsFacts.

Lemma is_conn_capabilities_query_call typec caps c q :
  is_conn_capabilities (query_call typec caps c q)
  = match q with ConnCapabilities => true | _ => false end.
Proof. destruct q; reflexivity. Qed.

Lemma release_nonzero q res r : res_ret res = Some r -> r <> 0 -> release q res = [].
Proof.
  intros Hr Hne.
  destruct q, res; simpl in *; try reflexivity; inversion Hr; subst;
    apply Z.eqb_neq in Hne; rewrite Hne; reflexivity.
Qed.

Lemma assert_fails_zero res : assert_fails res = true -> res_ret res = Some 0.
Proof.
  destruct res; simpl; try discriminate.
  intros H. apply andb_true_iff in H. destruct H as (H & _).
  apply Z.eqb_eq in H. congruence.
Qed.

Section Run.

Context {W : Type}.
Variable lib : Library W.
Variable OsBackends_Sysfs : Z.

Lemma bind_invoke {A B} (cl : call) (f : W -> A * W) (log : A -> result)
    (k : A -> M W B) s :
  bind (invoke cl f log) k s
  = k (fst (f (world s)))
      {| world := snd (f (world s));
         calls := calls s ++ [Event cl (log (fst (f (world s))))];
         stderr := stderr s |}.
Proof.
  unfold bind, invoke. destruct (f (world s)) as [a w']. reflexivity.
Qed.

Theorem run_adequate backend w :
  run_shape lib (backend_type OsBackends_Sysfs backend) w
            (trace lib OsBackends_Sysfs backend w)
            (outcome lib OsBackends_Sysfs backend w).
Proof.
  unfold trace, outcome, run.
  set (bt := backend_type OsBackends_Sysfs backend).
  set (P := fun res : flow unit * St W => run_shape lib bt w (calls (snd res)) (fst res)).
  change (P (c_example_lstypec lib OsBackends_Sysfs backend (start w))).
  unfold c_example_lstypec, new_, get_capabilities.
  cbv zeta. fold (backend_type OsBackends_Sysfs backend). fold bt.
  rewrite bind_invoke. cbn [world calls stderr start app].
  destruct (libtypec_rs_new lib bt w) as [[r h] w1] eqn:Enew. cbn [fst snd].
  unfold bind at 1. destruct (h =? NULL) eqn:Eh.
  - apply Z.eqb_eq in Eh. subst h. subst P. cbn.
    apply run_no_handle. rewrite Enew. reflexivity.
  - apply Z.eqb_neq in Eh. unfold ret at 1. cbv beta iota.
    rewrite bind_invoke. cbn [world calls stderr app].
    destruct (libtypec_rs_get_capabilities lib h w1) as [[r' caps] w2]. cbn [fst snd].
    unfold bind at 1. destruct (r' =? 0) eqn:Er.
    + apply Z.eqb_eq in Er. subst r'. cbn [negb]. unfold ret at 1. cbv beta iota.
      match goal with |- context [bind (connector_loop _ _ _ _ _ _) _ ?s] =>
        set (s2 := s) end.
      destruct (connector_loop_performs lib h caps (connector_count caps)
                  (loop_fuel caps) 0 no_buf
                  ltac:(unfold loop_fuel, connector_count; lia) ltac:(lia)
                  ltac:(unfold connector_count;
                        pose proof (to_size_t_range (Z.of_N (num_connectors caps)));
                        lia) s2)
        as (t & Et & Hsteps).
      unfold bind at 1.
      destruct (connector_loop lib (loop_fuel caps) h caps 0 no_buf s2)
        as [[out | r2 | | ] s3]; cbn [fst snd forget] in *.
      * unfold destroy, invoke_void. rewrite bind_invoke. subst P. cbn. rewrite Et.
        subst s2. cbn.
        apply run_finished; [rewrite Enew; reflexivity | assumption | assumption].
      * subst P. cbn. rewrite Et. subst s2. cbn.
        apply run_stopped;
          [rewrite Enew; reflexivity | assumption | discriminate | assumption].
      * subst P. cbn. rewrite Et. subst s2. cbn.
        apply run_stopped;
          [rewrite Enew; reflexivity | assumption | discriminate | assumption].
      * exfalso. eapply steps_not_out_of_fuel; eauto.
    + apply Z.eqb_neq in Er. subst P. cbn.
      apply run_no_capabilities; [rewrite Enew; reflexivity | assumption | assumption].
Qed.

(** The fuel given to the loop is enough: every run ends with a [return] or
    at the assertion. *)
Corollary run_ends backend w :
  (exists r, outcome lib OsBackends_Sysfs backend w = Returned r) \/
  outcome lib OsBackends_Sysfs backend w = Aborted.
Proof.
  pose proof (run_adequate backend w) as Hrun.
  inversion Hrun as [r Hnew Ht Ho | r h r' caps Hnew Hh Hr Ht Ho
                     | r h caps t o Hnew Hh Hne Hs Ht Ho
                     | r h caps t Hnew Hh Hs Ht Ho]; eauto.
  destruct (outcome lib OsBackends_Sysfs backend w) as [[] | r' | | ]; eauto.
  - congruence.
  - exfalso. eapply steps_not_out_of_fuel; eauto.
Qed.

(** An entry of the log of a run that is not a session call lies after the
    construction and the successful capability query, among the calls of the
    loop; what follows it in the log is what follows it there, and then the
    destruction of the session when all queries were made. *)
Lemma run_body_inv backend w pre e post :
  trace lib OsBackends_Sysfs backend w = pre ++ e :: post ->
  session_call (ev_call e) = false ->
  exists r typec caps pre' post' t o,
    fst (libtypec_rs_new lib (backend_type OsBackends_Sysfs backend) w) = (r, typec) /\
    typec <> NULL /\
    pre = Event (call_new (backend_type OsBackends_Sysfs backend)) (res_typec r typec)
          :: Event (call_get_capabilities typec) (res_capabilities 0 caps) :: pre' /\
    steps lib typec caps (schedule caps) t o /\
    t = pre' ++ e :: post' /\
    ((o <> Normal tt /\ post = post' /\ outcome lib OsBackends_Sysfs backend w = o) \/
     (o = Normal tt /\ post = post' ++ [Event (call_destroy typec) res_void] /\
      outcome lib OsBackends_Sysfs backend w = Returned 0)).
Proof.
  intros Heq Hq. pose proof (run_adequate backend w) as Hrun. rewrite Heq in Hrun.
  assert (Hsplit : forall (e1 e2 : event) t,
            session_call (ev_call e1) = true -> session_call (ev_call e2) = true ->
            e1 :: e2 :: t = pre ++ e :: post ->
            exists pre', pre = e1 :: e2 :: pre' /\ t = pre' ++ e :: post).
  { intros e1 e2 t H1 H2 H.
    destruct pre as [| p1 [| p2 pre']]; simpl in H; inversion H; subst;
      try congruence. eauto. }
  inversion Hrun as [r Hnew Ht Ho | r h r' caps Hnew Hh Hr Ht Ho
                     | r h caps t o Hnew Hh Hne Hs Ht Ho
                     | r h caps t Hnew Hh Hs Ht Ho].
  - destruct pre as [| p [| p' pre']]; inversion Ht; subst; discriminate.
  - destruct pre as [| p [| p' [| p'' pre']]]; inversion Ht; subst; discriminate.
  - apply Hsplit in Ht; [| reflexivity | reflexivity].
    destruct Ht as (pre' & -> & Ht').
    exists r, h, caps, pre', post, t, o. subst o.
    repeat (split; [assumption || reflexivity |]). left. auto.
  - apply Hsplit in Ht; [| reflexivity | reflexivity].
    destruct Ht as (pre' & -> & Ht').
    assert (Hin : exists post', t = pre' ++ e :: post' /\
                                post = post' ++ [Event (call_destroy h) res_void]).
    { clear - Ht' Hq. revert t Ht'. induction pre' as [| p pre' IH]; intros t Ht'.
      - destruct t as [| x t]; simpl in Ht'; inversion Ht'; subst.
        + discriminate.
        + exists t. split; reflexivity.
      - destruct t as [| x t]; simpl in Ht'; inversion Ht' as [[Hx Hrest]]; subst.
        + destruct pre'; discriminate.
        + destruct (IH _ Hrest) as (post' & -> & ->).
          exists post'. split; reflexivity. }
    destruct Hin as (post' & Ht'' & ->).
    exists r, h, caps, pre', post', t, (Normal tt).
    repeat (split; [assumption || reflexivity |]). right. auto.
Qed.

Lemma query_not_session e : is_query e = true -> session_call (ev_call e) = false.
Proof. unfold is_query. destruct (ev_call e); simpl; congruence. Qed.

(** A query entry of the log of a run sits at a position of the schedule. *)
Lemma run_query_inv backend w pre e post :
  trace lib OsBackends_Sysfs backend w = pre ++ e :: post ->
  is_query e = true ->
  exists r typec caps pre' post' o done c q todo,
    fst (libtypec_rs_new lib (backend_type OsBackends_Sysfs backend) w) = (r, typec) /\
    typec <> NULL /\
    pre = Event (call_new (backend_type OsBackends_Sysfs backend)) (res_typec r typec)
          :: Event (call_get_capabilities typec) (res_capabilities 0 caps) :: pre' /\
    schedule caps = done ++ (c, q) :: todo /\
    logs lib typec caps c q e /\
    after_query lib typec caps q todo e post' o /\
    ((o <> Normal tt /\ post = post' /\ outcome lib OsBackends_Sysfs backend w = o) \/
     (o = Normal tt /\ post = post' ++ [Event (call_destroy typec) res_void] /\
      outcome lib OsBackends_Sysfs backend w = Returned 0)).
Proof.
  intros Heq Hq.
  destruct (run_body_inv backend w pre e post Heq (query_not_session e Hq))
    as (r & typec & caps & pre' & post' & t & o & Hnew & Hh & Hpre & Hs & Ht & Hend).
  destruct (steps_query_inv _ _ _ _ _ _ Hs _ _ _ Ht Hq)
    as (done & c & q & todo & Hsch & Hl & Haft).
  exists r, typec, caps, pre', post', o, done, c, q, todo.
  repeat (split; [assumption |]). assumption.
Qed.

(** A code that is fatal for the query that gave it ends the run there. *)
Lemma fatal_ends_run backend w pre e post r :
  trace lib OsBackends_Sysfs backend w = pre ++ e :: post ->
  is_query e = true ->
  ev_ret e = Some r ->
  exists typec caps c q,
    ev_call e = query_call typec caps c q /\
    (fatal q r = true ->
     post = [] /\ outcome lib OsBackends_Sysfs backend w = Returned r).
Proof.
  intros Heq Hq Hr.
  destruct (run_query_inv backend w pre e post Heq Hq)
    as (r0 & typec & caps & pre' & post' & o & done & c & q & todo
        & _ & _ & _ & _ & (Hc & _) & (r1 & Hr1 & Haft) & Hend).
  rewrite Hr in Hr1. inversion Hr1; subst r1.
  exists typec, caps, c, q. split; [assumption |]. intros Hfatal.
  destruct Haft as [(_ & -> & ->) | [(Ha & _) | (Hf & _)]].
  - destruct Hend as [(_ & -> & ->) | (Habs & _)]; [auto | discriminate].
  - apply assert_fails_zero in Ha. unfold ev_ret in Hr. rewrite Hr in Ha.
    apply fatal_nonzero in Hfatal. congruence.
  - congruence.
Qed.

End Run.

(** ** The claims about the driver *)

Section Claims.

Context {W : Type}.
Variable lib : Library W.
Variable OsBackends_Sysfs : Z.

Lemma schedule_connector caps c q :
  In (c, q) (schedule caps) -> 0 <= c < Z.of_N (num_connectors caps).
Proof.
  unfold schedule, schedule_from. intros Hin.
  apply in_flat_map in Hin. destruct Hin as (c' & Hc' & Hin).
  apply in_map_iff in Hin. destruct Hin as (q' & Heq & _). inversion Heq; subst c' q'.
  assert (Hrange : forall count first, In c (connector_range first count) ->
                                       first <= c < first + Z.of_nat count).
  { induction count as [| count IH]; simpl; intros first H; [contradiction |].
    destruct H as [-> | H]; [lia |]. apply IH in H. lia. }
  apply Hrange in Hc'. unfold connector_count in Hc'.
  pose proof (to_size_t_range (Z.of_N (num_connectors caps))) as Hn.
  rewrite Z2Nat.id in Hc' by lia.
  assert (to_size_t (Z.of_N (num_connectors caps)) <= Z.of_N (num_connectors caps)).
  { unfold to_size_t. apply Z.mod_le; [lia | reflexivity]. }
  lia.
Qed.

(** C9. Called with backend argument 0, the driver passes OsBackends_Sysfs to
    libtypec_rs_new; called with a nonzero argument, it passes that argument
    unchanged.  The call is the first one of the log. *)
Theorem C9_backend_kind_passed_to_new backend w :
  (backend = 0 ->
   exists res rest,
     trace lib OsBackends_Sysfs backend w
     = Event (call_new OsBackends_Sysfs) res :: rest) /\
  (backend <> 0 ->
   exists res rest,
     trace lib OsBackends_Sysfs backend w = Event (call_new backend) res :: rest).
Proof.
  pose proof (run_adequate lib OsBackends_Sysfs backend w) as Hrun.
  unfold backend_type in Hrun.
  split; intros Hb.
  - subst backend. simpl in Hrun. inversion Hrun; eauto.
  - apply Z.eqb_neq in Hb. rewrite Hb in Hrun. inversion Hrun; eauto.
Qed.

(** C8. libtypec_rs_new yields a status code and a handle or NULL.  When the
    handle is NULL the driver returns the status code at once: the call to
    libtypec_rs_new is the only call it makes.  When the handle is not NULL
    its next call is libtypec_rs_get_capabilities on that handle. *)
Theorem C8_null_handle_returns_status backend w r typec :
  fst (libtypec_rs_new lib (backend_type OsBackends_Sysfs backend) w) = (r, typec) ->
  (typec = NULL ->
   trace lib OsBackends_Sysfs backend w
   = [Event (call_new (backend_type OsBackends_Sysfs backend)) (res_typec r NULL)] /\
   outcome lib OsBackends_Sysfs backend w = Returned r) /\
  (typec <> NULL ->
   exists r' caps rest,
     trace lib OsBackends_Sysfs backend w
     = Event (call_new (backend_type OsBackends_Sysfs backend)) (res_typec r typec)
       :: Event (call_get_capabilities typec) (res_capabilities r' caps) :: rest).
Proof.
  intros Hnew. pose proof (run_adequate lib OsBackends_Sysfs backend w) as Hrun.
  inversion Hrun as [r0 Hn Ht Ho | r0 h r' caps Hn Hh Hr Ht Ho
                     | r0 h caps t o Hn Hh Hne Hs Ht Ho
                     | r0 h caps t Hn Hh Hs Ht Ho];
    rewrite Hnew in Hn; inversion Hn; subst; split; intros Hty; try congruence; eauto.
Qed.

(** C10.  libtypec_rs_new reports a nonzero status whenever it yields no
    handle (status 0 means success).  Then the driver calls
    libtypec_rs_destroy if and only if it returns 0, and on no other handle
    than the session's: every return before the end of the loop (no session,
    no capabilities, a fatal code from a query) leaves the session handle
    undestroyed. *)
Theorem C10_session_destroyed_iff_completed backend w r typec :
  fst (libtypec_rs_new lib (backend_type OsBackends_Sysfs backend) w) = (r, typec) ->
  (typec = NULL -> r <> 0) ->
  forall h,
    (exists e, In e (trace lib OsBackends_Sysfs backend w) /\ ev_call e = call_destroy h) <->
    (h = typec /\ outcome lib OsBackends_Sysfs backend w = Returned 0).
Proof.
  intros Hnew Hstatus h. pose proof (run_adequate lib OsBackends_Sysfs backend w) as Hrun.
  inversion Hrun as [r0 Hn Ht Ho | r0 h0 r' caps Hn Hh Hr Ht Ho
                     | r0 h0 caps t o Hn Hh Hne Hs Ht Ho
                     | r0 h0 caps t Hn Hh Hs Ht Ho];
    rewrite Hnew in Hn; inversion Hn; subst r0; try subst h0; try subst typec.
  - split.
    + intros (e & [<- | []] & Hc). discriminate.
    + intros (_ & Hret). inversion Hret. apply Hstatus in H0; [contradiction | reflexivity].
  - split.
    + intros (e & [<- | [<- | []]] & Hc); discriminate.
    + intros (_ & Hret). inversion Hret. congruence.
  - split.
    + intros (e & [<- | [<- | Hin]] & Hc); try discriminate.
      pose proof (steps_not_session _ _ _ _ _ _ Hs) as Hall.
      rewrite Forall_forall in Hall. apply Hall in Hin. rewrite Hc in Hin. discriminate.
    + intros (_ & Hret). rewrite Hret in Hs.
      apply steps_returned_nonzero in Hs. congruence.
  - split.
    + intros (e & [<- | [<- | Hin]] & Hc); try discriminate.
      apply in_app_or in Hin. destruct Hin as [Hin | [<- | []]].
      * pose proof (steps_not_session _ _ _ _ _ _ Hs) as Hall.
        rewrite Forall_forall in Hall. apply Hall in Hin. rewrite Hc in Hin.
        discriminate.
      * simpl in Hc. inversion Hc. split; congruence.
    + intros (-> & _). exists (Event (call_destroy typec) res_void).
      split; [| reflexivity]. right. right. apply in_or_app. right. left. reflexivity.
Qed.

(** C3. Every per-connector query is made after a libtypec_rs_get_capabilities
    call that returned 0, on a connector index i with
    0 <= i < capabilities.num_connectors for the capabilities that call gave. *)
Theorem C3_connector_index_in_range backend w pre e post i :
  trace lib OsBackends_Sysfs backend w = pre ++ e :: post ->
  connector_of (ev_call e) = Some i ->
  exists r typec caps pre',
    pre = Event (call_new (backend_type OsBackends_Sysfs backend)) (res_typec r typec)
          :: Event (call_get_capabilities typec) (res_capabilities 0 caps) :: pre' /\
    0 <= i < Z.of_N (num_connectors caps).
Proof.
  intros Heq Hi.
  assert (Hq : is_query e = true) by (unfold is_query; rewrite Hi; reflexivity).
  destruct (run_query_inv lib OsBackends_Sysfs backend w pre e post Heq Hq)
    as (r & typec & caps & pre' & post' & o & done & c & q & todo
        & _ & _ & Hpre & Hsch & (Hc & _) & _).
  exists r, typec, caps, pre'. split; [assumption |].
  rewrite Hc, connector_of_query_call in Hi. inversion Hi; subst i.
  apply (schedule_connector caps c q). rewrite Hsch. apply in_or_app. right. left.
  reflexivity.
Qed.

(** C2.  The status codes of the library are 0 and negative numbers.  For
    every per-connector query, a status code that is neither 0 nor -ENOTSUP
    makes the driver return that same code at once: the query is the last
    call of the log, so no query follows for this or any later connector. *)
Theorem C2_fatal_code_returned_at_once backend w pre e post r :
  trace lib OsBackends_Sysfs backend w = pre ++ e :: post ->
  is_query e = true ->
  ev_ret e = Some r ->
  r <= 0 ->
  r <> 0 -> r <> - ENOTSUP ->
  post = [] /\ outcome lib OsBackends_Sysfs backend w = Returned r.
Proof.
  intros Heq Hq Hr Hcode H0 H1.
  destruct (fatal_ends_run lib OsBackends_Sysfs backend w pre e post r Heq Hq Hr)
    as (typec & caps & c & q & Hc & Hends).
  apply Hends.
  destruct q; unfold fatal;
    try (apply Z.ltb_lt; lia);
    apply Z.eqb_neq in H0; apply Z.eqb_neq in H1; rewrite H0, H1; reflexivity.
Qed.

(** C1, as amended.  A return value of -ENOTSUP from libtypec_rs_get_pdos,
    libtypec_rs_get_cable_properties, libtypec_rs_get_alternate_modes or
    libtypec_rs_get_pd_message does not end the enumeration: the next call of
    the driver is the next query of the schedule (on the same connector, or
    the first query of the next connector), or, after the last query of the
    last connector, the destruction of the session.  From
    libtypec_rs_get_conn_capabilities, -ENOTSUP is returned by the driver at
    once, as every negative code is. *)
Theorem C1_unsupported_does_not_end_enumeration backend w pre e post :
  trace lib OsBackends_Sysfs backend w = pre ++ e :: post ->
  is_query e = true ->
  ev_ret e = Some (- ENOTSUP) ->
  if is_conn_capabilities (ev_call e)
  then post = [] /\ outcome lib OsBackends_Sysfs backend w = Returned (- ENOTSUP)
  else exists typec caps done c q todo e' post',
         In (Event (call_get_capabilities typec) (res_capabilities 0 caps)) pre /\
         schedule caps = done ++ (c, q) :: todo /\
         ev_call e = query_call typec caps c q /\
         post = e' :: post' /\
         ev_call e' = next_call typec caps todo.
Proof.
  intros Heq Hq Hr.
  destruct (is_conn_capabilities (ev_call e)) eqn:Hconn.
  { destruct (fatal_ends_run lib OsBackends_Sysfs backend w pre e post (- ENOTSUP)
                Heq Hq Hr) as (typec & caps & c & q & Hc & Hends).
    apply Hends. rewrite Hc, is_conn_capabilities_query_call in Hconn.
    destruct q; try discriminate Hconn. reflexivity. }
  destruct (run_query_inv lib OsBackends_Sysfs backend w pre e post Heq Hq)
    as (r0 & typec & caps & pre' & post' & o & done & c & q & todo
        & _ & _ & Hpre & Hsch & (Hc & _) & (r1 & Hr1 & Haft) & Hend).
  rewrite Hr in Hr1. inversion Hr1; subst r1.
  rewrite Hc, is_conn_capabilities_query_call in Hconn.
  assert (Hfatal : fatal q (- ENOTSUP) = false) by (destruct q; try discriminate; reflexivity).
  destruct Haft as [(Hf & _) | [(Ha & _) | (_ & _ & t & Hpost & Hs)]].
  - congruence.
  - apply assert_fails_zero in Ha. unfold ev_ret in Hr. rewrite Hr in Ha. discriminate.
  - rewrite (release_nonzero q _ _ Hr ltac:(discriminate)) in Hpost. simpl in Hpost.
    subst post'.
    assert (Hcap : In (Event (call_get_capabilities typec) (res_capabilities 0 caps)) pre)
      by (rewrite Hpre; right; left; reflexivity).
    destruct todo as [| [c' q'] todo'].
    + apply steps_nil_inv in Hs. destruct Hs as (-> & ->).
      destruct Hend as [(Hne & _) | (_ & -> & _)]; [congruence |].
      exists typec, caps, done, c, q, [], (Event (call_destroy typec) res_void), [].
      repeat split; assumption.
    + destruct (steps_head _ _ _ _ _ _ _ _ Hs) as (e' & t' & -> & (Hc' & _)).
      destruct Hend as [(_ & -> & _) | (_ & -> & _)].
      * exists typec, caps, done, c, q, ((c', q') :: todo'), e', t'.
        repeat split; assumption.
      * exists typec, caps, done, c, q, ((c', q') :: todo'), e',
          (t' ++ [Event (call_destroy typec) res_void]).
        repeat split; assumption.
Qed.

(** C6. When libtypec_rs_get_pdos returns 0 with a populated pointer, the
    next call of the driver is libtypec_rs_destroy_pdos with the pointer, the
    element count and the allocated size that the query left in its three
    out-parameters; when libtypec_rs_get_alternate_modes returns 0 the next
    call is libtypec_rs_destroy_alternate_modes with the three values that
    query left.  (A pointer left NULL by a successful PDO query stops the
    driver at its assertion.) *)
Theorem C6_destroy_gets_the_query_outputs backend w pre e post :
  trace lib OsBackends_Sysfs backend w = pre ++ e :: post ->
  (forall before out,
     is_get_pdos (ev_call e) = true ->
     ev_result e = res_pdos 0 before out ->
     buf_ptr out <> NULL ->
     exists post', post = Event (call_destroy_pdos out) res_void :: post') /\
  (forall modes,
     is_get_alternate_modes (ev_call e) = true ->
     ev_result e = res_modes 0 modes ->
     exists post', post = Event (call_destroy_alternate_modes modes) res_void :: post').
Proof.
  intros Heq.
  assert (Hgen : forall out_ev,
            is_query e = true -> ev_ret e = Some 0 ->
            assert_fails (ev_result e) = false ->
            (forall q, release q (ev_result e) = [out_ev]) ->
            exists post', post = out_ev :: post').
  { intros out_ev Hq Hr Hnoassert Hrel.
    destruct (run_query_inv lib OsBackends_Sysfs backend w pre e post Heq Hq)
      as (r0 & typec & caps & pre' & post' & o & done & c & q & todo
          & _ & _ & _ & _ & _ & (r1 & Hr1 & Haft) & Hend).
    rewrite Hr in Hr1. inversion Hr1; subst r1.
    destruct Haft as [(Hf & _) | [(Ha & _) | (_ & _ & t & Hpost & Hs)]].
    - apply fatal_nonzero in Hf. congruence.
    - congruence.
    - rewrite Hrel in Hpost. subst post'.
      destruct Hend as [(_ & -> & _) | (_ & -> & _)]; simpl; eauto. }
  split.
  - intros before out Hcall Hres Hptr.
    apply Hgen.
    + unfold is_query. destruct (ev_call e); try discriminate; reflexivity.
    + unfold ev_ret. rewrite Hres. reflexivity.
    + rewrite Hres. simpl. apply Z.eqb_neq in Hptr. rewrite Hptr. reflexivity.
    + intros q. rewrite Hres. destruct q; reflexivity.
  - intros modes Hcall Hres.
    apply Hgen.
    + unfold is_query. destruct (ev_call e); try discriminate; reflexivity.
    + unfold ev_ret. rewrite Hres. reflexivity.
    + rewrite Hres. reflexivity.
    + intros q. rewrite Hres. destruct q; reflexivity.
Qed.








Lemma status_code_nonzero err : status_code err <> 0.
Proof. destruct err; discriminate. Qed.

(** Under the boundary contract a logged PDO query either succeeded and left
    a handle that is not NULL, or failed and left the out-parameters alone,
    which for a partner query means reset. *)
Lemma conformant_logs typec caps c q e r before after :
  pdos_conformant lib ->
  logs lib typec caps c q e ->
  ev_result e = res_pdos r before after ->
  (r = 0 -> buf_ptr after <> NULL) /\
  (r <> 0 -> after = before) /\
  (is_partner_pdos (ev_call e) = true -> before = no_buf).
Proof.
  intros Hconf (Hc & Hk & Hg) Hres. destruct e as [cl res]. simpl in *. subst res.
  destruct q; try discriminate Hk; subst cl; simpl in Hg;
    destruct Hg as ((w0 & Hw) & Hreset);
    match type of Hw with
    | fst (libtypec_rs_get_pdos _ ?h ?i ?p ?o ?n ?ty ?src ?v ?b ?w) = _ =>
        destruct (Hconf h i p o n ty src v b w) as (answer & handle & sz & Hspec)
    end;
    rewrite Hw in Hspec; destruct answer as [err | pdos]; simpl in Hspec;
    inversion Hspec; subst; (split; [| split]); simpl; intros H;
    try reflexivity; try congruence; try discriminate; auto;
    exfalso; eapply status_code_nonzero; eassumption.
Qed.

Lemma steps_aborted_inv typec caps sched t :
  steps lib typec caps sched t Aborted ->
  exists c q e, logs lib typec caps c q e /\ assert_fails (ev_result e) = true.
Proof.
  intros H. remember Aborted as o eqn:Ho.
  induction H; try discriminate; eauto.
Qed.

(** An entry of the loop's log that is not a query is the release that
    directly follows a query. *)
Lemma steps_release_inv typec caps sched t o :
  steps lib typec caps sched t o ->
  forall pre d post, t = pre ++ d :: post -> is_query d = false ->
  exists pre' g c q,
    pre = pre' ++ [g] /\ logs lib typec caps c q g /\ release q (ev_result g) = [d].
Proof.
  induction 1 as [| c q todo e0 r Hl Hr Hf | c q todo e0 Hl Ha
                  | c q todo e0 r t o Hl Hr Hf Ha Hs IH];
    intros pre d post Heq Hq.
  - destruct pre; discriminate.
  - destruct pre as [| p [| p' pre]]; inversion Heq; subst.
    apply logs_is_query in Hl. congruence.
  - destruct pre as [| p [| p' pre]]; inversion Heq; subst.
    apply logs_is_query in Hl. congruence.
  - destruct pre as [| p pre]; simpl in Heq; inversion Heq as [[He Hrest]]; subst.
    + apply logs_is_query in Hl. congruence.
    + pose proof (release_length q (ev_result p)) as Hlen.
      destruct (release q (ev_result p)) as [| x [| y l]] eqn:Hrel;
        simpl in Hrest, Hlen; try lia.
      * destruct (IH _ _ _ Hrest Hq) as (pre' & g & c' & q' & -> & Hg & Hrel').
        exists (p :: pre'), g, c', q'. split; [reflexivity | split; assumption].
      * destruct pre as [| p' pre]; simpl in Hrest;
          inversion Hrest as [[Hx Hrest']]; subst.
        -- exists [], p, c, q. split; [reflexivity | split; assumption].
        -- destruct (IH _ _ _ eq_refl Hq) as (pre' & g & c' & q' & -> & Hg & Hrel').
           exists (p :: p' :: pre'), g, c', q'. split; [reflexivity | split; assumption].
Qed.

(** With libtypec_rs_get_pdos following the boundary contract of the
    specification, the driver's assert(out_pdos) never fails, a query that
    returns a nonzero code leaves the out-parameters as the driver handed
    them in (NULL, 0, 0 for a partner query, which the driver resets) and is
    not followed by libtypec_rs_destroy_pdos.  For any library, each
    libtypec_rs_destroy_pdos call directly follows a libtypec_rs_get_pdos
    call that returned 0 and passes what that call left in its
    out-parameters. *)
Lemma conformant_pdos_run backend w :
  pdos_conformant lib ->
  outcome lib OsBackends_Sysfs backend w <> Aborted /\
  (forall pre e post r before after,
     trace lib OsBackends_Sysfs backend w = pre ++ e :: post ->
     is_get_pdos (ev_call e) = true ->
     ev_result e = res_pdos r before after ->
     (r = 0 -> buf_ptr after <> NULL) /\
     (r <> 0 ->
      after = before /\
      (is_partner_pdos (ev_call e) = true -> after = no_buf) /\
      forall e' post', post = e' :: post' -> is_destroy_pdos (ev_call e') = false)) /\
  (forall pre d post out,
     trace lib OsBackends_Sysfs backend w = pre ++ d :: post ->
     ev_call d = call_destroy_pdos out ->
     exists pre' g before,
       pre = pre' ++ [g] /\ is_get_pdos (ev_call g) = true /\
       ev_result g = res_pdos 0 before out).
Proof.
  intros Hconf. split; [| split].
  - intros Habort.
    pose proof (run_adequate lib OsBackends_Sysfs backend w) as Hrun.
    rewrite Habort in Hrun.
    inversion Hrun as [ | | r h caps t o Hnew Hh Hne Hs Ht Ho | ].
    destruct (steps_aborted_inv _ _ _ _ Hs) as (c & q & e & Hl & Ha).
    destruct (ev_result e) as [| | | | r0 before after | |] eqn:Hres;
      try discriminate Ha.
    destruct (conformant_logs _ _ _ _ _ _ _ _ Hconf Hl Hres) as (Hok & _).
    simpl in Ha. apply andb_true_iff in Ha. destruct Ha as (H0 & Hnull).
    apply Z.eqb_eq in H0. apply Z.eqb_eq in Hnull. exact (Hok H0 Hnull).
  - intros pre e post r before after Heq Hcall Hres.
    assert (Hq : is_query e = true)
      by (unfold is_query; destruct (ev_call e); try discriminate; reflexivity).
    destruct (run_query_inv lib OsBackends_Sysfs backend w pre e post Heq Hq)
      as (r0 & typec & caps & pre' & post' & o & done & c & q & todo
          & _ & _ & _ & _ & Hl & (r1 & Hr1 & Haft) & Hend).
    destruct (conformant_logs _ _ _ _ _ _ _ _ Hconf Hl Hres) as (Hok & Hfail & Hreset).
    split; [assumption |]. intros Hne. split; [auto |].
    split; [intros Hp; rewrite (Hfail Hne); auto |].
    assert (Hr : ev_ret e = Some r) by (unfold ev_ret; rewrite Hres; reflexivity).
    rewrite Hr in Hr1. inversion Hr1; subst r1.
    intros e' post0 Hpost.
    destruct Haft as [(_ & -> & ->) | [(Ha & _) | (_ & _ & t & Hpost' & Hs)]].
    + destruct Hend as [(_ & -> & _) | (Habs & _)]; discriminate.
    + apply assert_fails_zero in Ha. unfold ev_ret in Hr. congruence.
    + rewrite (release_nonzero q _ _ Hr Hne) in Hpost'. simpl in Hpost'. subst post'.
      destruct todo as [| [c' q'] todo'].
      * apply steps_nil_inv in Hs. destruct Hs as (-> & ->).
        destruct Hend as [(Habs & _) | (_ & -> & _)]; [congruence |].
        inversion Hpost; subst. reflexivity.
      * destruct (steps_head _ _ _ _ _ _ _ _ Hs) as (e1 & t' & -> & (Hc' & _)).
        assert (e' = e1)
          by (destruct Hend as [(_ & -> & _) | (_ & -> & _)];
              inversion Hpost; reflexivity).
        subst e'. rewrite Hc'. destruct q'; reflexivity.
  - intros pre d post out Heq Hcall.
    assert (Hns : session_call (ev_call d) = false) by (rewrite Hcall; reflexivity).
    destruct (run_body_inv lib OsBackends_Sysfs backend w pre d post Heq Hns)
      as (r & typec & caps & pre' & post' & t & o & _ & _ & Hpre & Hs & Ht & _).
    assert (Hnq : is_query d = false) by (unfold is_query; rewrite Hcall; reflexivity).
    destruct (steps_release_inv _ _ _ _ _ Hs _ _ _ Ht Hnq)
      as (pre1 & g & c & q & -> & (Hc & Hk & _) & Hrel).
    exists (Event (call_new (backend_type OsBackends_Sysfs backend)) (res_typec r typec)
            :: Event (call_get_capabilities typec) (res_capabilities 0 caps) :: pre1),
      g.
    destruct g as [cl res]. simpl in *. subst cl.
    destruct q, res; simpl in Hk, Hrel; try discriminate;
      match type of Hrel with
      | (if ?b then _ else _) = _ => destruct b eqn:Hz; try discriminate
      end;
      inversion Hrel as [Hd]; rewrite <- Hd in Hcall; try discriminate Hcall;
      simpl in Hcall; inversion Hcall; subst;
      apply Z.eqb_eq in Hz; subst;
      eexists; (split; [reflexivity | split; reflexivity]).
Qed.

(** For any library, the call that follows a libtypec_rs_get_pd_message for
    SOP that returned 0 is not libtypec_rs_destroy_pd_message: the success
    branch of lines 140-141 is empty. *)
Lemma partner_identity_not_released backend w pre e post typec c response msg :
  trace lib OsBackends_Sysfs backend w = pre ++ e :: post ->
  e = Event (call_get_pd_message typec c PdMessageRecipient_Sop response)
            (res_message 0 msg) ->
  forall e' post' m, post = e' :: post' -> ev_call e' <> call_destroy_pd_message m.
Proof.
  intros Heq He e' post0 m Hpost.
  assert (Hq : is_query e = true) by (subst e; reflexivity).
  destruct (run_query_inv lib OsBackends_Sysfs backend w pre e post Heq Hq)
    as (r0 & h & caps & pre' & post' & o & done & c' & q & todo
        & _ & _ & _ & _ & (Hc & _) & (r1 & Hr1 & Haft) & Hend).
  subst e. simpl in Hc, Hr1, Haft. inversion Hr1; subst r1.
  destruct q; try discriminate Hc.
  destruct Haft as [(Hf & _) | [(Ha & _) | (_ & _ & t & Hpost' & Hs)]];
    try discriminate.
  simpl in Hpost'. subst post'.
  destruct todo as [| [c'' q''] todo'].
  - apply steps_nil_inv in Hs. destruct Hs as (-> & ->).
    destruct Hend as [(Habs & _) | (_ & -> & _)]; [congruence |].
    inversion Hpost; subst. discriminate.
  - destruct (steps_head _ _ _ _ _ _ _ _ Hs) as (e1 & t' & -> & (Hc' & _)).
    assert (e' = e1)
      by (destruct Hend as [(_ & -> & _) | (_ & -> & _)];
          inversion Hpost; reflexivity).
    subst e'. rewrite Hc'. destruct q''; discriminate.
Qed.

End Claims.

(** ** Further properties of the driver *)

Section Extras.

Context {W : Type}.
Variable lib : Library W.
Variable OsBackends_Sysfs : Z.

(** Where a capability query sits in the log of a run, and what the run is
    then. *)
Lemma run_capabilities_inv backend w typec r' caps :
  In (Event (call_get_capabilities typec) (res_capabilities r' caps))
     (trace lib OsBackends_Sysfs backend w) ->
  exists r,
    fst (libtypec_rs_new lib (backend_type OsBackends_Sysfs backend) w) = (r, typec) /\
    typec <> NULL /\
    ((r' <> 0 /\
      trace lib OsBackends_Sysfs backend w
      = [Event (call_new (backend_type OsBackends_Sysfs backend)) (res_typec r typec);
         Event (call_get_capabilities typec) (res_capabilities r' caps)] /\
      outcome lib OsBackends_Sysfs backend w = Returned r') \/
     (r' = 0 /\
      exists t o,
        steps lib typec caps (schedule caps) t o /\
        ((o <> Normal tt /\
          trace lib OsBackends_Sysfs backend w
          = Event (call_new (backend_type OsBackends_Sysfs backend)) (res_typec r typec)
            :: Event (call_get_capabilities typec) (res_capabilities 0 caps) :: t /\
          outcome lib OsBackends_Sysfs backend w = o) \/
         (o = Normal tt /\
          trace lib OsBackends_Sysfs backend w
          = Event (call_new (backend_type OsBackends_Sysfs backend)) (res_typec r typec)
            :: Event (call_get_capabilities typec) (res_capabilities 0 caps)
            :: t ++ [Event (call_destroy typec) res_void] /\
          outcome lib OsBackends_Sysfs backend w = Returned 0)))).
Proof.
  intros Hin. pose proof (run_adequate lib OsBackends_Sysfs backend w) as Hrun.
  inversion Hrun as [r Hnew Ht Ho | r h r0 caps0 Hnew Hh Hr Ht Ho
                     | r h caps0 t o Hnew Hh Hne Hs Ht Ho
                     | r h caps0 t Hnew Hh Hs Ht Ho];
    rewrite <- Ht in Hin.
  - destruct Hin as [Hin | []]. discriminate Hin.
  - destruct Hin as [Hin | [Hin | []]]; [discriminate Hin |].
    inversion Hin; subst. exists r. split; [assumption | split; [assumption |]].
    left. auto.
  - assert (Hcap : Event (call_get_capabilities h) (res_capabilities 0 caps0)
                   = Event (call_get_capabilities typec) (res_capabilities r' caps)).
    { destruct Hin as [Hin | [Hin | Hin]]; [discriminate Hin | assumption |].
      pose proof (steps_not_session _ _ _ _ _ _ Hs) as Hall.
      rewrite Forall_forall in Hall. apply Hall in Hin. discriminate Hin. }
    inversion Hcap; subst. exists r. split; [assumption | split; [assumption |]].
    right. split; [reflexivity |]. exists t, (outcome lib OsBackends_Sysfs backend w).
    split; [assumption |]. left. auto.
  - assert (Hcap : Event (call_get_capabilities h) (res_capabilities 0 caps0)
                   = Event (call_get_capabilities typec) (res_capabilities r' caps)).
    { destruct Hin as [Hin | [Hin | Hin]]; [discriminate Hin | assumption |].
      apply in_app_or in Hin. destruct Hin as [Hin | [Hin | []]]; [| discriminate Hin].
      pose proof (steps_not_session _ _ _ _ _ _ Hs) as Hall.
      rewrite Forall_forall in Hall. apply Hall in Hin. discriminate Hin. }
    inversion Hcap; subst. exists r. split; [assumption | split; [assumption |]].
    right. split; [reflexivity |]. exists t, (Normal tt).
    split; [assumption |]. right. auto.
Qed.

Lemma steps_returned_last typec caps sched t r :
  steps lib typec caps sched t (Returned r) ->
  exists pre e, t = pre ++ [e] /\ ev_ret e = Some r /\ is_query e = true.
Proof.
  intros H. remember (Returned r) as o eqn:Ho.
  induction H as [| c q todo e0 r0 Hl Hr Hf | c q todo e0 Hl Ha
                  | c q todo e0 r0 t o Hl Hr Hf Ha Hs IH]; try discriminate.
  - inversion Ho; subst. exists [], e0. repeat split; try assumption.
    eapply logs_is_query; eassumption.
  - destruct (IH Ho) as (pre & e & -> & Hret & Hq).
    exists (e0 :: release q (ev_result e0) ++ pre), e.
    split; [simpl; rewrite <- app_assoc; reflexivity | auto].
Qed.

Lemma steps_aborted_last typec caps sched t :
  steps lib typec caps sched t Aborted ->
  exists pre e c q,
    t = pre ++ [e] /\ logs lib typec caps c q e /\ assert_fails (ev_result e) = true.
Proof.
  intros H. remember Aborted as o eqn:Ho.
  induction H as [| c q todo e0 r0 Hl Hr Hf | c q todo e0 Hl Ha
                  | c q todo e0 r0 t o Hl Hr Hf Ha Hs IH]; try discriminate.
  - exists [], e0, c, q. auto.
  - destruct (IH Ho) as (pre & e & c' & q' & -> & Hl' & Ha').
    exists (e0 :: release q (ev_result e0) ++ pre), e, c', q'.
    split; [simpl; rewrite <- app_assoc; reflexivity | auto].
Qed.

Lemma steps_handles typec caps sched t o :
  steps lib typec caps sched t o ->
  Forall (fun e => forall h, handle_of (ev_call e) = Some h -> h = typec) t.
Proof.
  assert (Hq : forall c q e h, logs lib typec caps c q e ->
                               handle_of (ev_call e) = Some h -> h = typec).
  { intros c q e h (Hc & _) Hh. rewrite Hc in Hh. destruct q; inversion Hh; reflexivity. }
  assert (Hrel : forall q res,
            Forall (fun e => forall h, handle_of (ev_call e) = Some h -> h = typec)
                   (release q res)).
  { intros q res. destruct q, res; simpl; try constructor;
      match goal with
      | |- context [if ?b then _ else _] => destruct b
      end; repeat constructor; simpl; discriminate. }
  induction 1; repeat constructor; eauto.
  apply Forall_app. split; [apply Hrel | assumption].
Qed.

Lemma steps_destroy_pdos_not_null typec caps sched t o :
  steps lib typec caps sched t o ->
  Forall (fun e => forall b, ev_call e = call_destroy_pdos b -> buf_ptr b <> NULL) t.
Proof.
  assert (Hq : forall c q e b, logs lib typec caps c q e ->
                               ev_call e = call_destroy_pdos b -> buf_ptr b <> NULL).
  { intros c q e b (Hc & _) Hb. rewrite Hc in Hb. destruct q; discriminate Hb. }
  induction 1 as [| c q todo e0 r0 Hl Hr Hf | c q todo e0 Hl Ha
                  | c q todo e0 r0 t o Hl Hr Hf Ha Hs IH];
    repeat constructor; eauto.
  apply Forall_app. split; [| assumption].
  destruct (ev_result e0) as [| | | | r1 before after | |]; destruct q; simpl;
    try constructor;
    match goal with
    | |- context [if ?b then _ else _] => destruct b eqn:Hz
    end; repeat constructor; simpl; intros b Hb; inversion Hb; subst;
    simpl in Ha; rewrite Hz in Ha; simpl in Ha; apply Z.eqb_neq; assumption.
Qed.

Lemma steps_normal_covers typec caps sched t :
  steps lib typec caps sched t (Normal tt) ->
  forall c q, In (c, q) sched -> exists e, In e t /\ logs lib typec caps c q e.
Proof.
  intros H. remember (Normal tt) as o eqn:Ho.
  induction H as [| c0 q0 todo e0 r0 Hl Hr Hf | c0 q0 todo e0 Hl Ha
                  | c0 q0 todo e0 r0 t o Hl Hr Hf Ha Hs IH]; try discriminate;
    intros c q Hin.
  - contradiction.
  - destruct Hin as [Heq | Hin].
    + inversion Heq; subst. exists e0. split; [left; reflexivity | assumption].
    + destruct (IH Ho _ _ Hin) as (e & He & Hle).
      exists e. split; [| assumption]. right. apply in_or_app. right. assumption.
Qed.

Lemma in_schedule caps i q :
  0 <= i < to_size_t (Z.of_N (num_connectors caps)) -> In (i, q) (schedule caps).
Proof.
  intros Hi. unfold schedule, schedule_from. apply in_flat_map. exists i. split.
  - unfold connector_count.
    assert (Hrange : forall count first,
              first <= i < first + Z.of_nat count -> In i (connector_range first count)).
    { induction count as [| count IH]; intros first H; [lia |].
      simpl. destruct (Z.eq_dec first i) as [-> | Hne]; [left; reflexivity |].
      right. apply IH. lia. }
    apply Hrange. rewrite Z2Nat.id by lia. lia.
  - apply in_map. destruct q; simpl; auto 12.
Qed.

Lemma schedule_length caps : length (schedule caps) = (11 * connector_count caps)%nat.
Proof.
  unfold schedule, schedule_from. generalize 0.
  induction (connector_count caps) as [| n IH]; intros first; [reflexivity |].
  simpl. rewrite IH. lia.
Qed.

(** X1.  However the library answers, the number of per-connector queries of
    a run is at most eleven for each of the connectors the capability result
    counts (converted to size_t). *)
Theorem queries_bounded backend w typec caps :
  In (Event (call_get_capabilities typec) (res_capabilities 0 caps))
     (trace lib OsBackends_Sysfs backend w) ->
  (length (filter is_query (trace lib OsBackends_Sysfs backend w))
   <= 11 * connector_count caps)%nat.
Proof.
  intros Hin.
  destruct (run_capabilities_inv backend w typec 0 caps Hin)
    as (r & _ & _ & [(Hne & _) | (_ & t & o & Hs & Hcase)]); [congruence |].
  destruct (steps_prefix _ _ _ _ _ _ Hs) as (done & todo & Hsch & Hmap & _).
  assert (Hlen : length (filter is_query t) = length done).
  { rewrite <- (length_map ev_call), Hmap, length_map. reflexivity. }
  pose proof (schedule_length caps) as Hall. rewrite Hsch, length_app in Hall.
  destruct Hcase as [(_ & -> & _) | (_ & -> & _)]; simpl.
  - lia.
  - rewrite filter_app. simpl. rewrite app_nil_r. lia.
Qed.

(** X2.  When the capability query succeeds and reports no connector, the
    driver makes no per-connector query: it destroys the session and
    returns 0. *)
Theorem no_connectors_no_queries backend w typec caps :
  In (Event (call_get_capabilities typec) (res_capabilities 0 caps))
     (trace lib OsBackends_Sysfs backend w) ->
  to_size_t (Z.of_N (num_connectors caps)) = 0 ->
  exists r,
    trace lib OsBackends_Sysfs backend w
    = [Event (call_new (backend_type OsBackends_Sysfs backend)) (res_typec r typec);
       Event (call_get_capabilities typec) (res_capabilities 0 caps);
       Event (call_destroy typec) res_void] /\
    outcome lib OsBackends_Sysfs backend w = Returned 0.
Proof.
  intros Hin Hzero.
  destruct (run_capabilities_inv backend w typec 0 caps Hin)
    as (r & _ & _ & [(Hne & _) | (_ & t & o & Hs & Hcase)]); [congruence |].
  assert (Hsched : schedule caps = [])
    by (unfold schedule, connector_count; rewrite Hzero; reflexivity).
  rewrite Hsched in Hs. apply steps_nil_inv in Hs. destruct Hs as (-> & ->).
  destruct Hcase as [(Hne & _) | (_ & Ht & Ho)]; [congruence |].
  exists r. split; assumption.
Qed.

(** X3.  When libtypec_rs_get_capabilities returns a nonzero code the driver
    returns that code at once: the capability query is its last call. *)
Theorem capabilities_failure_returned backend w typec r' caps :
  In (Event (call_get_capabilities typec) (res_capabilities r' caps))
     (trace lib OsBackends_Sysfs backend w) ->
  r' <> 0 ->
  exists r,
    trace lib OsBackends_Sysfs backend w
    = [Event (call_new (backend_type OsBackends_Sysfs backend)) (res_typec r typec);
       Event (call_get_capabilities typec) (res_capabilities r' caps)] /\
    outcome lib OsBackends_Sysfs backend w = Returned r'.
Proof.
  intros Hin Hne.
  destruct (run_capabilities_inv backend w typec r' caps Hin)
    as (r & _ & _ & [(_ & Ht & Ho) | (Hz & _)]); [| congruence].
  exists r. split; assumption.
Qed.

(** X4.  A nonzero code returned by the driver is the status code of the last
    library call it made. *)
Theorem returned_code_is_last_status backend w r :
  outcome lib OsBackends_Sysfs backend w = Returned r ->
  r <> 0 ->
  exists pre e,
    trace lib OsBackends_Sysfs backend w = pre ++ [e] /\ ev_ret e = Some r.
Proof.
  intros Hout Hne. pose proof (run_adequate lib OsBackends_Sysfs backend w) as Hrun.
  rewrite Hout in Hrun.
  inversion Hrun as [r0 Hnew Ht Ho | r0 h r' caps Hnew Hh Hr Ht Ho
                     | r0 h caps t o Hnew Hh Hn Hs Ht Ho
                     | r0 h caps t Hnew Hh Hs Ht Ho].
  - exists [], (Event (call_new (backend_type OsBackends_Sysfs backend))
                      (res_typec r NULL)). split; reflexivity.
  - exists [Event (call_new (backend_type OsBackends_Sysfs backend)) (res_typec r0 h)],
      (Event (call_get_capabilities h) (res_capabilities r caps)).
    split; reflexivity.
  - destruct (steps_returned_last _ _ _ _ _ Hs) as (pre & e & -> & Hret & _).
    exists (Event (call_new (backend_type OsBackends_Sysfs backend)) (res_typec r0 h)
            :: Event (call_get_capabilities h) (res_capabilities 0 caps) :: pre), e.
    split; [reflexivity | assumption].
  - congruence.
Qed.

Lemma split_at_last {A} (P : A -> Prop) (l : list A) (d : A) :
  Forall P l ->
  forall pre e post, ~ P e -> l ++ [d] = pre ++ e :: post -> post = [] /\ pre = l.
Proof.
  induction 1 as [| x l Hx Hall IH]; intros pre e post He Heq.
  - destruct pre as [| p pre]; simpl in Heq; inversion Heq; subst; auto.
    destruct pre; discriminate.
  - destruct pre as [| p pre]; simpl in Heq; inversion Heq; subst.
    + contradiction.
    + match goal with H : l ++ [d] = pre ++ e :: post |- _ =>
        destruct (IH _ _ _ He H) as (-> & ->) end.
      auto.
Qed.

Lemma steps_no_session_destroy typec caps sched t o :
  steps lib typec caps sched t o ->
  Forall (fun x => forall h, ev_call x <> call_destroy h) t.
Proof.
  intros Hs. eapply Forall_impl; [| eapply steps_not_session; eassumption].
  intros x Hx h Hc. cbv beta in Hx. rewrite Hc in Hx. discriminate Hx.
Qed.

(** X5.  The destruction of the session is the last call of a run and is made
    at most once: no library call follows libtypec_rs_destroy, and none
    before it is a libtypec_rs_destroy. *)
Theorem session_destroy_is_last backend w pre e post h :
  trace lib OsBackends_Sysfs backend w = pre ++ e :: post ->
  ev_call e = call_destroy h ->
  post = [] /\ forall e' h', In e' pre -> ev_call e' <> call_destroy h'.
Proof.
  intros Heq Hcall. pose proof (run_adequate lib OsBackends_Sysfs backend w) as Hrun.
  rewrite Heq in Hrun.
  assert (He : ~ (forall h', ev_call e <> call_destroy h'))
    by (intros Hx; exact (Hx h Hcall)).
  inversion Hrun as [r0 Hnew Ht Ho | r0 h0 r' caps Hnew Hh Hr Ht Ho
                     | r0 h0 caps t o Hnew Hh Hn Hs Ht Ho
                     | r0 h0 caps t Hnew Hh Hs Ht Ho].
  - destruct pre as [| p [| p' pre]]; inversion Ht; subst; discriminate Hcall.
  - destruct pre as [| p [| p' [| p'' pre]]]; inversion Ht; subst; discriminate Hcall.
  - exfalso.
    assert (Hall : Forall (fun x => forall h', ev_call x <> call_destroy h')
                          (pre ++ e :: post)).
    { rewrite <- Ht. constructor; [discriminate |]. constructor; [discriminate |].
      eapply steps_no_session_destroy; eassumption. }
    apply Forall_app in Hall. destruct Hall as (_ & Hall).
    inversion Hall; subst. auto.
  - assert (Hall : Forall (fun x => forall h', ev_call x <> call_destroy h')
                          (Event (call_new (backend_type OsBackends_Sysfs backend))
                                 (res_typec r0 h0)
                           :: Event (call_get_capabilities h0) (res_capabilities 0 caps)
                           :: t)).
    { constructor; [discriminate |]. constructor; [discriminate |].
      eapply steps_no_session_destroy; eassumption. }
    destruct (split_at_last _ _ (Event (call_destroy h0) res_void) Hall _ _ _ He Ht)
      as (-> & ->).
    split; [reflexivity |]. intros e' h' Hin. rewrite Forall_forall in Hall. auto.
Qed.

(** X6.  Every library call that takes a session handle is made on the handle
    that libtypec_rs_new produced. *)
Theorem every_call_on_the_session_handle backend w r typec e h :
  fst (libtypec_rs_new lib (backend_type OsBackends_Sysfs backend) w) = (r, typec) ->
  In e (trace lib OsBackends_Sysfs backend w) ->
  handle_of (ev_call e) = Some h ->
  h = typec.
Proof.
  intros Hnew Hin Hh. pose proof (run_adequate lib OsBackends_Sysfs backend w) as Hrun.
  inversion Hrun as [r0 Hn Ht Ho | r0 h0 r' caps Hn Hh0 Hr Ht Ho
                     | r0 h0 caps t o Hn Hh0 Hne Hs Ht Ho
                     | r0 h0 caps t Hn Hh0 Hs Ht Ho];
    rewrite Hnew in Hn; inversion Hn; subst; rewrite <- Ht in Hin.
  - destruct Hin as [<- | []]. discriminate Hh.
  - destruct Hin as [<- | [<- | []]]; [discriminate Hh |]. inversion Hh. reflexivity.
  - destruct Hin as [<- | [<- | Hin]]; [discriminate Hh | inversion Hh; reflexivity |].
    pose proof (steps_handles _ _ _ _ _ Hs) as Hall. rewrite Forall_forall in Hall.
    eapply Hall; eassumption.
  - destruct Hin as [<- | [<- | Hin]]; [discriminate Hh | inversion Hh; reflexivity |].
    apply in_app_or in Hin. destruct Hin as [Hin | [<- | []]].
    + pose proof (steps_handles _ _ _ _ _ Hs) as Hall. rewrite Forall_forall in Hall.
      eapply Hall; eassumption.
    + inversion Hh. reflexivity.
Qed.

(** X7.  libtypec_rs_destroy_pdos is never called with a NULL pointer,
    whatever the library leaves in the out-parameters. *)
Theorem destroy_pdos_never_null backend w e b :
  In e (trace lib OsBackends_Sysfs backend w) ->
  ev_call e = call_destroy_pdos b ->
  buf_ptr b <> NULL.
Proof.
  intros Hin Hcall.
  apply in_split in Hin. destruct Hin as (pre & post & Heq).
  assert (Hns : session_call (ev_call e) = false) by (rewrite Hcall; reflexivity).
  destruct (run_body_inv lib OsBackends_Sysfs backend w pre e post Heq Hns)
    as (r & typec & caps & pre' & post' & t & o & _ & _ & _ & Hs & Ht & _).
  pose proof (steps_destroy_pdos_not_null _ _ _ _ _ Hs) as Hall.
  rewrite Forall_forall in Hall. apply (Hall e); [| assumption].
  rewrite Ht. apply in_or_app. right. left. reflexivity.
Qed.

(** A call of the loop that is not a query is the release right after a
    query, in the log of a run. *)
Lemma run_release_inv backend w pre d post :
  trace lib OsBackends_Sysfs backend w = pre ++ d :: post ->
  session_call (ev_call d) = false ->
  is_query d = false ->
  exists pre' g typec caps c q,
    pre = pre' ++ [g] /\ logs lib typec caps c q g /\ release q (ev_result g) = [d].
Proof.
  intros Heq Hns Hnq.
  destruct (run_body_inv lib OsBackends_Sysfs backend w pre d post Heq Hns)
    as (r & typec & caps & pre' & post' & t & o & _ & _ & Hpre & Hs & Ht & _).
  destruct (steps_release_inv _ _ _ _ _ _ Hs _ _ _ Ht Hnq)
    as (pre1 & g & c & q & -> & Hl & Hrel).
  exists (Event (call_new (backend_type OsBackends_Sysfs backend)) (res_typec r typec)
          :: Event (call_get_capabilities typec) (res_capabilities 0 caps) :: pre1),
    g, typec, caps, c, q.
  subst pre. split; [reflexivity | split; assumption].
Qed.

(** X8.  Each libtypec_rs_destroy_alternate_modes call directly follows a
    libtypec_rs_get_alternate_modes call that returned 0, and passes the
    three values that call left: no buffer of alternate modes is destroyed
    twice, and none that a failed query left. *)
Theorem destroy_alternate_modes_follows_query backend w pre d post modes :
  trace lib OsBackends_Sysfs backend w = pre ++ d :: post ->
  ev_call d = call_destroy_alternate_modes modes ->
  exists pre' g,
    pre = pre' ++ [g] /\ is_get_alternate_modes (ev_call g) = true /\
    ev_result g = res_modes 0 modes.
Proof.
  intros Heq Hcall.
  destruct (run_release_inv backend w pre d post Heq)
    as (pre' & g & typec & caps & c & q & -> & (Hc & Hk & _) & Hrel);
    try (unfold is_query; rewrite Hcall; reflexivity).
  exists pre', g. split; [reflexivity |].
  destruct g as [cl res]. simpl in *. subst cl.
  destruct q, res; simpl in Hk, Hrel; try discriminate;
    match type of Hrel with
    | (if ?b then _ else _) = _ => destruct b eqn:Hz; try discriminate
    end;
    inversion Hrel as [Hd]; rewrite <- Hd in Hcall; try discriminate Hcall;
    simpl in Hcall; inversion Hcall; subst;
    apply Z.eqb_eq in Hz; subst; split; reflexivity.
Qed.

(** X9.  Each libtypec_rs_destroy_pd_message call directly follows a
    libtypec_rs_get_pd_message call for SOP' that returned 0, and passes the
    message that call left: a message obtained for SOP is never destroyed,
    and none is destroyed twice. *)
Theorem destroy_pd_message_follows_cable_identity backend w pre d post msg :
  trace lib OsBackends_Sysfs backend w = pre ++ d :: post ->
  ev_call d = call_destroy_pd_message msg ->
  exists pre' typec c,
    pre = pre' ++ [Event (call_get_pd_message typec c PdMessageRecipient_SopPrime
                                              PdMessageResponseType_DiscoverIdentity)
                         (res_message 0 msg)].
Proof.
  intros Heq Hcall.
  destruct (run_release_inv backend w pre d post Heq)
    as (pre' & g & typec & caps & c & q & -> & (Hc & Hk & _) & Hrel);
    try (unfold is_query; rewrite Hcall; reflexivity).
  exists pre', typec, c. f_equal. f_equal.
  destruct g as [cl res]. simpl in *. subst cl.
  destruct q, res; simpl in Hk, Hrel; try discriminate;
    match type of Hrel with
    | (if ?b then _ else _) = _ => destruct b eqn:Hz; try discriminate
    end;
    inversion Hrel as [Hd]; rewrite <- Hd in Hcall; try discriminate Hcall;
    simpl in Hcall; inversion Hcall; subst;
    apply Z.eqb_eq in Hz; subst; reflexivity.
Qed.

(** X10.  When libtypec_rs_get_pd_message for SOP' returns 0, the next call
    of the driver is libtypec_rs_destroy_pd_message on the message it
    obtained. *)
Theorem cable_identity_released backend w pre e post typec c response msg :
  trace lib OsBackends_Sysfs backend w = pre ++ e :: post ->
  e = Event (call_get_pd_message typec c PdMessageRecipient_SopPrime response)
            (res_message 0 msg) ->
  exists post', post = Event (call_destroy_pd_message msg) res_void :: post'.
Proof.
  intros Heq He.
  assert (Hq : is_query e = true) by (subst e; reflexivity).
  destruct (run_query_inv lib OsBackends_Sysfs backend w pre e post Heq Hq)
    as (r0 & h & caps & pre' & post' & o & done & c' & q & todo
        & _ & _ & _ & _ & (Hc & _) & (r1 & Hr1 & Haft) & Hend).
  subst e. simpl in Hc, Hr1, Haft. inversion Hr1; subst r1.
  destruct q; try discriminate Hc.
  destruct Haft as [(Hf & _) | [(Ha & _) | (_ & _ & t & Hpost' & Hs)]];
    try discriminate.
  simpl in Hpost'. subst post'.
  destruct Hend as [(_ & -> & _) | (_ & -> & _)]; simpl; eauto.
Qed.

(** X11.  A run that has a session and returns 0 made every query of the
    schedule: on each connector index below the connector count of the
    capability result (converted to size_t), each of the eleven queries. *)
Theorem completed_run_covers_schedule backend w typec caps i q :
  In (Event (call_get_capabilities typec) (res_capabilities 0 caps))
     (trace lib OsBackends_Sysfs backend w) ->
  outcome lib OsBackends_Sysfs backend w = Returned 0 ->
  0 <= i < to_size_t (Z.of_N (num_connectors caps)) ->
  exists e,
    In e (trace lib OsBackends_Sysfs backend w) /\
    ev_call e = query_call typec caps i q.
Proof.
  intros Hin Hout Hi.
  destruct (run_capabilities_inv backend w typec 0 caps Hin)
    as (r & _ & _ & [(Hne & _) | (_ & t & o & Hs & Hcase)]); [congruence |].
  destruct Hcase as [(Hne & _ & Ho) | (-> & Ht & _)].
  - exfalso. rewrite Hout in Ho. subst o.
    apply steps_returned_nonzero in Hs. congruence.
  - destruct (steps_normal_covers _ _ _ _ Hs i q (in_schedule caps i q Hi))
      as (e & He & (Hc & _)).
    exists e. split; [| assumption].
    rewrite Ht. right. right. apply in_or_app. left. assumption.
Qed.

(** X12.  The driver stops at an assertion exactly when its last call is a
    libtypec_rs_get_pdos that returned 0 and left the pointer NULL. *)
Theorem aborted_iff_null_pdos backend w :
  outcome lib OsBackends_Sysfs backend w = Aborted <->
  exists pre e before after,
    trace lib OsBackends_Sysfs backend w = pre ++ [e] /\
    is_get_pdos (ev_call e) = true /\
    ev_result e = res_pdos 0 before after /\
    buf_ptr after = NULL.
Proof.
  split.
  - intros Hout. pose proof (run_adequate lib OsBackends_Sysfs backend w) as Hrun.
    rewrite Hout in Hrun.
    inversion Hrun as [ | | r h caps t o Hnew Hh Hne Hs Ht Ho | ].
    destruct (steps_aborted_last _ _ _ _ Hs) as (pre & e & c & q & -> & (Hc & Hk & _) & Ha).
    exists (Event (call_new (backend_type OsBackends_Sysfs backend)) (res_typec r h)
            :: Event (call_get_capabilities h) (res_capabilities 0 caps) :: pre), e.
    destruct (ev_result e) as [| | | | r1 before after | |] eqn:Hres;
      try discriminate Ha.
    simpl in Ha. apply andb_true_iff in Ha. destruct Ha as (H0 & Hnull).
    apply Z.eqb_eq in H0. apply Z.eqb_eq in Hnull. subst r1.
    exists before, after. repeat split; try assumption.
    rewrite Hc. destruct q; try discriminate Hk; reflexivity.
  - intros (pre & e & before & after & Heq & Hcall & Hres & Hnull).
    assert (Hq : is_query e = true)
      by (unfold is_query; destruct (ev_call e); try discriminate; reflexivity).
    destruct (run_query_inv lib OsBackends_Sysfs backend w pre e [] Heq Hq)
      as (r0 & h & caps & pre' & post' & o & done & c & q & todo
          & _ & _ & _ & _ & _ & (r1 & Hr1 & Haft) & Hend).
    assert (Hfails : assert_fails (ev_result e) = true).
    { rewrite Hres. simpl. rewrite Hnull. reflexivity. }
    assert (Hr : ev_ret e = Some 0) by (unfold ev_ret; rewrite Hres; reflexivity).
    rewrite Hr in Hr1. inversion Hr1; subst r1.
    destruct Haft as [(Hf & _) | [(_ & _ & ->) | (_ & Ha & _)]].
    + apply fatal_nonzero in Hf. congruence.
    + destruct Hend as [(_ & _ & Ho) | (Habs & _)]; [assumption | discriminate].
    + congruence.
Qed.

(** The codes of the queries of a complete log let the driver go on. *)
Lemma logs_tolerated typec caps c q e r :
  logs lib typec caps c q e -> fatal q r = false -> tolerated (ev_call e) r.
Proof.
  intros (Hc & _) Hf. unfold tolerated.
  rewrite Hc, is_conn_capabilities_query_call.
  destruct q; unfold fatal in Hf;
    try (apply Z.ltb_ge in Hf; assumption);
    apply andb_false_iff in Hf; destruct Hf as [Hf | Hf];
    apply negb_false_iff in Hf; apply Z.eqb_eq in Hf; auto.
Qed.

(** X13.  The driver returns 0 only if no query gave a fatal code: the
    connector capabilities never returned a negative code and each other
    query returned 0 or -ENOTSUP. *)
Theorem zero_returned_without_fatal_code backend w e r :
  outcome lib OsBackends_Sysfs backend w = Returned 0 ->
  In e (trace lib OsBackends_Sysfs backend w) ->
  is_query e = true ->
  ev_ret e = Some r ->
  tolerated (ev_call e) r.
Proof.
  intros Hout Hin Hq Hr.
  apply in_split in Hin. destruct Hin as (pre & post & Heq).
  destruct (run_query_inv lib OsBackends_Sysfs backend w pre e post Heq Hq)
    as (r0 & h & caps' & pre' & post' & o & done & c & q & todo
        & _ & _ & _ & _ & Hl & (r1 & Hr1 & Haft) & Hend).
  rewrite Hr in Hr1. inversion Hr1; subst r1.
  destruct Haft as [(Hf & _ & ->) | [(_ & _ & ->) | (Hf & _)]].
  - exfalso. destruct Hend as [(_ & _ & Ho) | (Habs & _)]; [| discriminate].
    rewrite Hout in Ho. inversion Ho; subst. apply fatal_nonzero in Hf. congruence.
  - exfalso. destruct Hend as [(_ & _ & Ho) | (Habs & _)]; [| discriminate].
    rewrite Hout in Ho. discriminate Ho.
  - eapply logs_tolerated; eassumption.
Qed.

(** *** What is written to stderr *)

Lemma reports_ret {A} (a : A) : reports (ret (W := W) a).
Proof. intros s. reflexivity. Qed.

Lemma reports_invoke {A} (cl : call) (f : W -> A * W) (log : A -> result) :
  reports (invoke cl f log).
Proof. intros s. unfold invoke. destruct (f (world s)). reflexivity. Qed.

Lemma reports_assert (p : ptr) : reports (assert (W := W) "out_pdos" p).
Proof. intros s. unfold assert. destruct (p =? NULL); reflexivity. Qed.

Lemma reports_failure {A} (fmt : string) (args : list Z) (r : Z) :
  reports (bind (fprintf_stderr fmt args) (fun _ => return_ (W := W) (A := A) r)).
Proof. intros s. exists fmt, args. reflexivity. Qed.

Lemma reports_bind {A B} (m : M W A) (k : A -> M W B) :
  reports m -> (forall a, reports (k a)) -> reports (bind m k).
Proof.
  intros Hm Hk s. specialize (Hm s). unfold bind.
  destruct (m s) as [[a | r | | ] s']; try assumption.
  specialize (Hk a s'). destruct (k a s') as [[b | r | | ] s''];
    try (rewrite Hk, Hm; reflexivity).
  destruct Hk as (fmt & args & Hline). exists fmt, args. rewrite Hline, Hm. reflexivity.
Qed.

Ltac report_step :=
  first
    [ apply reports_ret
    | apply reports_invoke
    | apply reports_assert
    | apply reports_failure
    | apply reports_bind; [| intros ?]
    | match goal with
      | |- reports (if ?b then _ else _) => destruct b
      | |- reports (let '(_, _) := ?p in _) => destruct p
      end ].

Lemma connector_body_reports typec caps c out :
  reports (connector_body lib typec caps c out).
Proof.
  unfold connector_body, get_conn_capabilities, get_pdos, get_cable_properties,
    get_alternate_modes, get_pd_message, destroy_pdos, destroy_alternate_modes,
    destroy_pd_message, invoke_void.
  cbv zeta. repeat report_step.
Qed.

Lemma connector_loop_reports fuel :
  forall typec caps c out, reports (connector_loop lib fuel typec caps c out).
Proof.
  induction fuel as [| fuel IH]; intros typec caps c out; simpl.
  - intros s. reflexivity.
  - destruct (c <? _).
    + apply reports_bind; [apply connector_body_reports | intros out'; apply IH].
    + apply reports_ret.
Qed.

(** X14.  What a run leaves on stderr.  A run that completes the enumeration
    and returns 0 writes nothing.  A run that returns early (no session
    handle, or a nonzero code) writes exactly one [fprintf] text.  A run that
    stops at assert(out_pdos) writes exactly the diagnostic of that
    assertion. *)
Theorem stderr_report backend w r0 typec :
  fst (libtypec_rs_new lib (backend_type OsBackends_Sysfs backend) w) = (r0, typec) ->
  (outcome lib OsBackends_Sysfs backend w = Returned 0 /\ typec <> NULL /\
   stderr (snd (run lib OsBackends_Sysfs backend w)) = []) \/
  (outcome lib OsBackends_Sysfs backend w = Aborted /\
   stderr (snd (run lib OsBackends_Sysfs backend w)) = [AssertionFailed "out_pdos"]) \/
  (exists fmt args r,
     outcome lib OsBackends_Sysfs backend w = Returned r /\
     (typec = NULL \/ r <> 0) /\
     stderr (snd (run lib OsBackends_Sysfs backend w)) = [Printed fmt args]).
Proof.
  intros Hnew. unfold outcome, run.
  set (bt := backend_type OsBackends_Sysfs backend) in *.
  set (P := fun res : flow unit * St W =>
              (fst res = Returned 0 /\ typec <> NULL /\ stderr (snd res) = []) \/
              (fst res = Aborted /\ stderr (snd res) = [AssertionFailed "out_pdos"]) \/
              (exists fmt args r,
                 fst res = Returned r /\ (typec = NULL \/ r <> 0) /\
                 stderr (snd res) = [Printed fmt args])).
  change (P (c_example_lstypec lib OsBackends_Sysfs backend (start w))).
  unfold c_example_lstypec, new_, get_capabilities.
  cbv zeta. fold (backend_type OsBackends_Sysfs backend). fold bt.
  rewrite bind_invoke. cbn [world calls stderr start app].
  destruct (libtypec_rs_new lib bt w) as [[r h] w1]. cbn [fst snd] in *.
  inversion Hnew; subst r0 typec.
  unfold bind at 1. destruct (h =? NULL) eqn:Eh.
  - apply Z.eqb_eq in Eh. subst P. cbn. right. right.
    eexists _, _, r. split; [reflexivity | split; [left; assumption | reflexivity]].
  - apply Z.eqb_neq in Eh. unfold ret at 1. cbv beta iota.
    rewrite bind_invoke. cbn [world calls stderr app].
    destruct (libtypec_rs_get_capabilities lib h w1) as [[r' caps] w2]. cbn [fst snd].
    unfold bind at 1. destruct (r' =? 0) eqn:Er.
    + apply Z.eqb_eq in Er. subst r'. cbn [negb]. unfold ret at 1. cbv beta iota.
      match goal with |- context [bind (connector_loop _ _ _ _ _ _) _ ?s] =>
        set (s2 := s) end.
      destruct (connector_loop_performs lib h caps (connector_count caps)
                  (loop_fuel caps) 0 no_buf
                  ltac:(unfold loop_fuel, connector_count; lia) ltac:(lia)
                  ltac:(unfold connector_count;
                        pose proof (to_size_t_range (Z.of_N (num_connectors caps)));
                        lia) s2)
        as (t & _ & Hsteps).
      pose proof (connector_loop_reports (loop_fuel caps) h caps 0 no_buf s2) as Hrep.
      unfold bind at 1.
      destruct (connector_loop lib (loop_fuel caps) h caps 0 no_buf s2)
        as [[out | r2 | | ] s3]; cbn [fst snd forget] in *.
      * unfold destroy, invoke_void. rewrite bind_invoke. subst P. cbn.
        left. rewrite Hrep. auto.
      * subst P. cbn. right. right. destruct Hrep as (fmt & args & Hline).
        exists fmt, args, r2. rewrite Hline. repeat split.
        right. eapply steps_returned_nonzero; eassumption.
      * subst P. cbn. right. left. rewrite Hrep. auto.
      * exfalso. eapply steps_not_out_of_fuel; eauto.
    + apply Z.eqb_neq in Er. subst P. cbn. right. right.
      eexists _, _, r'. split; [reflexivity | split; [right; assumption | reflexivity]].
Qed.

(** *** What the PDO queries are handed *)

Lemma pdos_inputs_app last t1 t2 :
  pdos_inputs last (t1 ++ t2) <->
  pdos_inputs last t1 /\ pdos_inputs (pdos_left last t1) t2.
Proof.
  revert last. induction t1 as [| e t1 IH]; intros last; simpl; [tauto |].
  destruct (ev_call e), (ev_result e); try apply IH.
  rewrite IH. tauto.
Qed.

Lemma pdos_left_app last t1 t2 :
  pdos_left last (t1 ++ t2) = pdos_left (pdos_left last t1) t2.
Proof.
  revert last. induction t1 as [| e t1 IH]; intros last; simpl; [reflexivity |].
  destruct (ev_call e), (ev_result e); apply IH.
Qed.

Lemma hands_bind {A B} (m : M W A) (k : A -> M W B) out o1 o2 :
  hands_on m out o1 -> (forall a, hands_on (k a) (o1 a) o2) ->
  hands_on (bind m k) out o2.
Proof.
  intros Hm Hk s. destruct (Hm s) as (t1 & E1 & I1 & L1). unfold bind.
  destruct (m s) as [[a | r | | ] s']; simpl in *;
    try (exists t1; repeat split; [assumption | assumption | discriminate]).
  destruct (Hk a s') as (t2 & E2 & I2 & L2).
  exists (t1 ++ t2). rewrite E2, E1, app_assoc. split; [reflexivity |].
  rewrite pdos_inputs_app, pdos_left_app, (L1 a eq_refl). auto.
Qed.

Lemma hands_ret {A} (a : A) out : hands_on (ret (W := W) a) out (fun _ => out).
Proof.
  intros s. exists []. simpl. rewrite app_nil_r. auto.
Qed.

Lemma hands_ret_out out : hands_on (ret (W := W) out) out (fun b => b).
Proof.
  intros s. exists []. simpl. rewrite app_nil_r. repeat split.
  intros a Ha. inversion Ha. reflexivity.
Qed.

Lemma hands_return {A} (r : Z) out o' : hands_on (return_ (W := W) (A := A) r) out o'.
Proof.
  intros s. exists []. simpl. rewrite app_nil_r. repeat split. discriminate.
Qed.

Lemma hands_failure {A} fmt args (r : Z) out o' :
  hands_on (bind (fprintf_stderr fmt args) (fun _ => return_ (W := W) (A := A) r))
           out o'.
Proof.
  intros s. exists []. simpl. rewrite app_nil_r. repeat split. discriminate.
Qed.

Lemma hands_assert expr p out : hands_on (assert (W := W) expr p) out (fun _ => out).
Proof.
  intros s. exists []. unfold assert. destruct (p =? NULL); simpl;
    rewrite app_nil_r; auto.
Qed.

Lemma hands_invoke {A} (cl : call) (f : W -> A * W) (log : A -> result) out :
  is_get_pdos cl = false ->
  hands_on (invoke cl f log) out (fun _ => out).
Proof.
  intros Hcl s. unfold invoke. destruct (f (world s)) as [a w'].
  exists [Event cl (log a)]. simpl.
  destruct cl; try discriminate Hcl; auto.
Qed.

Lemma hands_get_pdos h i (partner : bool) offset nr ty src ver
    (f : W -> (Z * Buf) * W) (before out : Buf) :
  before = (if partner then no_buf else out) ->
  hands_on (invoke (call_get_pdos h i partner offset nr ty src ver) f
                   (fun p : Z * Buf => let '(r, out') := p in res_pdos r before out'))
           out snd.
Proof.
  intros Hb s. unfold invoke. destruct (f (world s)) as [[r o] w'].
  eexists [_]. simpl. repeat split; try assumption.
  intros a Ha. inversion Ha. reflexivity.
Qed.

Ltac hand_step :=
  first
    [ apply hands_ret_out
    | apply hands_ret
    | apply hands_return
    | apply hands_failure
    | apply hands_assert
    | apply hands_invoke; reflexivity
    | apply hands_get_pdos; reflexivity
    | eapply hands_bind; [| intros ?; cbv beta ]
    | match goal with
      | |- hands_on (if ?b then _ else _) _ _ => destruct b
      | |- hands_on (let '(_, _) := ?p in _) _ _ => destruct p; cbn [snd]
      end ].

Lemma connector_body_hands_on typec caps c out :
  hands_on (connector_body lib typec caps c out) out (fun b => b).
Proof.
  unfold connector_body, get_conn_capabilities, get_pdos, get_cable_properties,
    get_alternate_modes, get_pd_message, destroy_pdos, destroy_alternate_modes,
    destroy_pd_message, invoke_void.
  cbv zeta. repeat hand_step.
Qed.

Lemma connector_loop_hands_on fuel :
  forall typec caps c out,
    hands_on (connector_loop lib fuel typec caps c out) out (fun b => b).
Proof.
  induction fuel as [| fuel IH]; intros typec caps c out; simpl.
  - intros s. exists []. simpl. rewrite app_nil_r. repeat split. discriminate.
  - destruct (c <? _).
    + eapply hands_bind; [apply connector_body_hands_on | intros out'; apply IH].
    + apply hands_ret_out.
Qed.

Lemma c_example_lstypec_hands_on backend :
  hands_on (c_example_lstypec lib OsBackends_Sysfs backend) no_buf (fun _ => no_buf).
Proof.
  unfold c_example_lstypec, new_, get_capabilities, destroy, invoke_void.
  cbv zeta. repeat first [apply connector_loop_hands_on | hand_step].
Qed.

(** X15.  Each libtypec_rs_get_pdos call for the partner is handed
    out-parameters that hold NULL, 0, 0; each libtypec_rs_get_pdos call for
    the connector itself is handed them as the previous libtypec_rs_get_pdos
    call of the run left them (NULL, 0, 0 before the first one), with no
    reset in between. *)
Theorem pdos_query_inputs backend w pre e post h i partner offset nr ty src ver
    r before after :
  trace lib OsBackends_Sysfs backend w = pre ++ e :: post ->
  e = Event (call_get_pdos h i partner offset nr ty src ver) (res_pdos r before after) ->
  before = if partner then no_buf else pdos_left no_buf pre.
Proof.
  intros Heq He.
  destruct (c_example_lstypec_hands_on backend (start w)) as (t & Et & Hin & _).
  simpl in Et. unfold trace, run in Heq. rewrite Et in Heq. subst t.
  apply pdos_inputs_app in Hin. destruct Hin as (_ & Hin).
  subst e. simpl in Hin. destruct Hin as (Hb & _). exact Hb.
Qed.

(** X16.  The driver always ends: whatever the library answers and however
    many connectors it reports, the loop of line 40 stops after at most one
    test per connector and one more, connector_nr++ never wrapping around,
    and the run ends with a return or at the assertion. *)
Theorem driver_always_ends backend w :
  outcome lib OsBackends_Sysfs backend w <> OutOfFuel /\
  outcome lib OsBackends_Sysfs backend w <> Normal tt.
Proof.
  destruct (run_ends lib OsBackends_Sysfs backend w) as [(r & Hr) | Ha];
    [rewrite Hr | rewrite Ha]; split; discriminate.
Qed.

End Extras.

(** ** The claims on the fixtures *)

Local Abbreviation ports := (trace (fixture_library two_ports) Sysfs 0 1%positive).
Local Abbreviation broken := (trace (fixture_library broken_transport) Sysfs 0 1%positive).

Lemma C1_witness :
  fixture_trace two_ports
  = firstn 5 (fixture_trace two_ports) ++ sink_answer :: skipn 6 (fixture_trace two_ports) /\
  is_query sink_answer = true /\
  ev_ret sink_answer = Some (- ENOTSUP) /\
  exists typec caps done c q todo e' post',
    In (Event (call_get_capabilities typec) (res_capabilities 0 caps))
       (firstn 5 (fixture_trace two_ports)) /\
    schedule caps = done ++ (c, q) :: todo /\
    ev_call sink_answer = query_call typec caps c q /\
    skipn 6 (fixture_trace two_ports) = e' :: post' /\
    ev_call e' = next_call typec caps todo.
Proof.
  unfold fixture_trace.
  assert (H : ports = firstn 5 ports ++ sink_answer :: skipn 6 ports)
    by (vm_compute; reflexivity).
  split; [exact H |]. split; [reflexivity |]. split; [reflexivity |].
  exact (C1_unsupported_does_not_end_enumeration
           (fixture_library two_ports) Sysfs 0 1%positive
           (firstn 5 ports) sink_answer (skipn 6 ports) H eq_refl eq_refl).
Defined.

Lemma C1_counterexample :
  ~ unsupported_never_ends_run
      (fixture_library (with_conn_capabilities (- ENOTSUP))) Sysfs 0 1%positive.
Proof.
  intros Hclaim.
  set (t := trace (fixture_library (with_conn_capabilities (- ENOTSUP)))
                  Sysfs 0 1%positive).
  assert (H : t = firstn 2 t ++ conn_answer (- ENOTSUP) :: [])
    by (vm_compute; reflexivity).
  destruct (Hclaim (firstn 2 t) (conn_answer (- ENOTSUP)) [] H eq_refl eq_refl)
    as (e' & post' & Hpost).
  discriminate Hpost.
Qed.

Lemma C2_witness :
  fixture_trace broken_transport
  = firstn 17 (fixture_trace broken_transport) ++ transport_failure :: [] /\
  is_query transport_failure = true /\
  ev_ret transport_failure = Some (- EIO) /\
  - EIO <= 0 /\ - EIO <> 0 /\ - EIO <> - ENOTSUP /\
  ([] = @nil event /\ fixture_outcome broken_transport = Returned (- EIO)).
Proof.
  unfold fixture_trace, fixture_outcome.
  assert (H : broken = firstn 17 broken ++ transport_failure :: [])
    by (vm_compute; reflexivity).
  assert (Hneg : - EIO <= 0) by (unfold EIO; lia).
  assert (H0 : - EIO <> 0) by (unfold EIO; lia).
  assert (H1 : - EIO <> - ENOTSUP) by (unfold EIO, ENOTSUP; lia).
  split; [exact H |]. split; [reflexivity |]. split; [reflexivity |].
  split; [exact Hneg |]. split; [exact H0 |]. split; [exact H1 |].
  exact (C2_fatal_code_returned_at_once
           (fixture_library broken_transport) Sysfs 0 1%positive
           (firstn 17 broken) transport_failure [] (- EIO) H eq_refl eq_refl Hneg H0 H1).
Defined.

(** A code above 0 is no status code of the library.  Were
    libtypec_rs_get_conn_capabilities to give one, the guard [ret < 0] of
    line 45 would let the driver go on. *)
Lemma positive_code_passes_connector_guard :
  ~ other_codes_end_run (fixture_library (with_conn_capabilities 1)) Sysfs 0 1%positive.
Proof.
  intros Hclaim.
  set (t := trace (fixture_library (with_conn_capabilities 1)) Sysfs 0 1%positive).
  assert (H : t = firstn 2 t ++ conn_answer 1 :: skipn 3 t)
    by (vm_compute; reflexivity).
  assert (Hcode : 1 <> 0 /\ 1 <> - ENOTSUP) by (unfold ENOTSUP; lia).
  destruct (Hclaim (firstn 2 t) (conn_answer 1) (skipn 3 t) 1
                   H eq_refl eq_refl (proj1 Hcode) (proj2 Hcode)) as (Hpost & _).
  vm_compute in Hpost. discriminate Hpost.
Qed.

Lemma C3_witness :
  fixture_trace two_ports
  = firstn 26 (fixture_trace two_ports)
    ++ cable_identity :: skipn 27 (fixture_trace two_ports) /\
  connector_of (ev_call cable_identity) = Some 1 /\
  exists r typec caps pre',
    firstn 26 (fixture_trace two_ports)
    = Event (call_new (backend_type Sysfs 0)) (res_typec r typec)
      :: Event (call_get_capabilities typec) (res_capabilities 0 caps) :: pre' /\
    0 <= 1 < Z.of_N (num_connectors caps).
Proof.
  unfold fixture_trace.
  assert (H : ports = firstn 26 ports ++ cable_identity :: skipn 27 ports)
    by (vm_compute; reflexivity).
  split; [exact H |]. split; [reflexivity |].
  exact (C3_connector_index_in_range
           (fixture_library two_ports) Sysfs 0 1%positive
           (firstn 26 ports) cable_identity (skipn 27 ports) 1 H eq_refl).
Defined.



Lemma fixture_conformant (fx : Fixture) : pdos_conformant (fixture_library fx).
Proof.
  intros typec i partner offset nr ty src ver out w. simpl.
  exists (fx_pdos fx i partner ty), w, 8. reflexivity.
Qed.

(** C5.  On [two_ports], whose libtypec_rs_get_pdos follows the boundary
    contract, the Source query of connector 0 returns 0 with a buffer that
    the driver's next call destroys; the Sink query that follows returns
    -ENOTSUP and its output handle is not unset: out_pdos, which lines 51 to
    54 and 65 to 68 do not reset, still holds the pointer to the destroyed
    buffer.  The partner Sink query of the same connector, before which
    lines 162 to 164 reset the out-parameters, returns -ENOTSUP with the
    handle NULL. *)
Theorem C5_failed_query_keeps_destroyed_handle :
  pdos_conformant (fixture_library two_ports) /\
  nth_error (fixture_trace two_ports) 3 = Some source_answer /\
  nth_error (fixture_trace two_ports) 4
  = Some (Event (call_destroy_pdos first_buffer) res_void) /\
  nth_error (fixture_trace two_ports) 5 = Some sink_answer /\
  ev_result sink_answer = res_pdos (- ENOTSUP) first_buffer first_buffer /\
  buf_ptr first_buffer <> NULL /\
  nth_error (fixture_trace two_ports) 17
  = Some (Event (fixture_pdos_call 0 true UcsiPdoType_Sink)
                (res_pdos (- ENOTSUP) no_buf no_buf)) /\
  buf_ptr no_buf = NULL.
Proof.
  split; [apply fixture_conformant |].
  repeat split; try discriminate; vm_compute; reflexivity.
Qed.

Lemma C6_witness :
  fixture_trace two_ports
  = firstn 3 (fixture_trace two_ports) ++ source_answer :: skipn 4 (fixture_trace two_ports) /\
  is_get_pdos (ev_call source_answer) = true /\
  ev_result source_answer = res_pdos 0 no_buf first_buffer /\
  buf_ptr first_buffer <> NULL /\
  exists post',
    skipn 4 (fixture_trace two_ports)
    = Event (call_destroy_pdos first_buffer) res_void :: post'.
Proof.
  unfold fixture_trace.
  assert (H : ports = firstn 3 ports ++ source_answer :: skipn 4 ports)
    by (vm_compute; reflexivity).
  assert (Hptr : buf_ptr first_buffer <> NULL) by (unfold NULL; simpl; lia).
  split; [exact H |]. split; [reflexivity |]. split; [reflexivity |].
  split; [exact Hptr |].
  exact (proj1 (C6_destroy_gets_the_query_outputs
                  (fixture_library two_ports) Sysfs 0 1%positive
                  (firstn 3 ports) source_answer (skipn 4 ports) H)
               no_buf first_buffer eq_refl eq_refl Hptr).
Defined.

Lemma C8_witness :
  fst (libtypec_rs_new (fixture_library two_ports) (backend_type Sysfs 0) 1%positive)
  = (0, 4096) /\
  (4096 = NULL ->
   fixture_trace two_ports
   = [Event (call_new (backend_type Sysfs 0)) (res_typec 0 NULL)] /\
   fixture_outcome two_ports = Returned 0) /\
  (4096 <> NULL ->
   exists r' caps rest,
     fixture_trace two_ports
     = Event (call_new (backend_type Sysfs 0)) (res_typec 0 4096)
       :: Event (call_get_capabilities 4096) (res_capabilities r' caps) :: rest).
Proof.
  unfold fixture_trace, fixture_outcome.
  split; [reflexivity |].
  exact (C8_null_handle_returns_status
           (fixture_library two_ports) Sysfs 0 1%positive 0 4096 eq_refl).
Defined.

Lemma C9_witness :
  (exists res rest, fixture_trace two_ports = Event (call_new Sysfs) res :: rest) /\
  (exists res rest,
     trace (fixture_library two_ports) Sysfs 7 1%positive = Event (call_new 7) res :: rest).
Proof.
  unfold fixture_trace.
  assert (H7 : 7 <> 0) by lia.
  split.
  - exact (proj1 (C9_backend_kind_passed_to_new
                    (fixture_library two_ports) Sysfs 0 1%positive) eq_refl).
  - exact (proj2 (C9_backend_kind_passed_to_new
                    (fixture_library two_ports) Sysfs 7 1%positive) H7).
Defined.

Lemma C10_witness :
  (fst (libtypec_rs_new (fixture_library two_ports) (backend_type Sysfs 0) 1%positive)
   = (0, 4096) /\
   (4096 = NULL -> 0 <> 0) /\
   forall h,
     (exists e, In e (fixture_trace two_ports) /\ ev_call e = call_destroy h) <->
     (h = 4096 /\ fixture_outcome two_ports = Returned 0)) /\
  (fst (libtypec_rs_new (fixture_library (with_new (- EINVAL) NULL))
                        (backend_type Sysfs 0) 1%positive)
   = (- EINVAL, NULL) /\
   (NULL = NULL -> - EINVAL <> 0) /\
   forall h,
     (exists e, In e (fixture_trace (with_new (- EINVAL) NULL)) /\
                ev_call e = call_destroy h) <->
     (h = NULL /\ fixture_outcome (with_new (- EINVAL) NULL) = Returned 0)).
Proof.
  unfold fixture_trace, fixture_outcome.
  assert (H1 : 4096 = NULL -> 0 <> 0) by (unfold NULL; lia).
  assert (H2 : NULL = NULL -> - EINVAL <> 0) by (unfold EINVAL; lia).
  split.
  - split; [reflexivity |]. split; [exact H1 |].
    exact (C10_session_destroyed_iff_completed
             (fixture_library two_ports) Sysfs 0 1%positive 0 4096 eq_refl H1).
  - split; [reflexivity |]. split; [exact H2 |].
    exact (C10_session_destroyed_iff_completed
             (fixture_library (with_new (- EINVAL) NULL)) Sysfs 0 1%positive
             (- EINVAL) NULL eq_refl H2).
Defined.

(** Status 0 with no handle is no answer of the library.  Were
    libtypec_rs_new to give it, the driver would return 0, the status, at
    line 29 with no session to destroy. *)
Lemma null_handle_with_status_zero :
  ~ destroyed_iff_returns_zero (fixture_library (with_new 0 NULL)) Sysfs 0 1%positive.
Proof.
  intros (_ & Hclaim).
  assert (Hret : outcome (fixture_library (with_new 0 NULL)) Sysfs 0 1%positive
                 = Returned 0) by (vm_compute; reflexivity).
  destruct (Hclaim Hret) as (e & h & Hin & Hcall).
  vm_compute in Hin. destruct Hin as [<- | []]. discriminate Hcall.
Qed.

(** C7.  On [two_ports] the identity of the cable plug, obtained with
    libtypec_rs_get_pd_message for SOP', is handed to
    libtypec_rs_destroy_pd_message by the next call; the identity of the
    partner, obtained for SOP with status 0, is followed by the partner PDO
    query and no call of the log hands it to libtypec_rs_destroy_pd_message,
    although the driver runs to its end and returns 0. *)
Theorem C7_partner_identity_never_destroyed :
  nth_error (fixture_trace two_ports) 26 = Some cable_identity /\
  nth_error (fixture_trace two_ports) 27
  = Some (Event (call_destroy_pd_message [4279238656; 0; 1]) res_void) /\
  nth_error (fixture_trace two_ports) 14 = Some partner_identity /\
  nth_error (fixture_trace two_ports) 15
  = Some (Event (fixture_pdos_call 0 true UcsiPdoType_Source)
                (res_pdos 0 no_buf {| buf_ptr := 4; buf_count := 1; buf_mem_sz := 8 |})) /\
  existsb (destroys_message [4279238657; 0; 2]) (fixture_trace two_ports) = false /\
  fixture_outcome two_ports = Returned 0.
Proof.
  repeat split; vm_compute; reflexivity.
Qed.

(** ** The further properties on the fixtures *)

Local Abbreviation no_ports :=
  (trace (fixture_library (with_capabilities 0 no_ports_capabilities)) Sysfs 0 1%positive).
Local Abbreviation no_caps :=
  (trace (fixture_library (with_capabilities (- EIO) no_ports_capabilities))
         Sysfs 0 1%positive).
Local Abbreviation careless := (trace careless_library Sysfs 0 1%positive).

Lemma queries_bounded_witness :
  In (capabilities_answer 0 two_ports_capabilities) (fixture_trace two_ports) /\
  (length (filter is_query (fixture_trace two_ports))
   <= 11 * connector_count two_ports_capabilities)%nat.
Proof.
  unfold fixture_trace.
  assert (H : In (capabilities_answer 0 two_ports_capabilities) ports)
    by (apply (nth_error_In ports 1); vm_compute; reflexivity).
  split; [exact H |].
  exact (queries_bounded (fixture_library two_ports) Sysfs 0 1%positive
                         4096 two_ports_capabilities H).
Defined.

Lemma no_connectors_no_queries_witness :
  In (capabilities_answer 0 no_ports_capabilities) no_ports /\
  to_size_t (Z.of_N (num_connectors no_ports_capabilities)) = 0 /\
  exists r,
    no_ports
    = [Event (call_new (backend_type Sysfs 0)) (res_typec r 4096);
       capabilities_answer 0 no_ports_capabilities;
       Event (call_destroy 4096) res_void] /\
    outcome (fixture_library (with_capabilities 0 no_ports_capabilities))
            Sysfs 0 1%positive = Returned 0.
Proof.
  assert (H : In (capabilities_answer 0 no_ports_capabilities) no_ports)
    by (apply (nth_error_In no_ports 1); vm_compute; reflexivity).
  split; [exact H |]. split; [reflexivity |].
  exact (no_connectors_no_queries
           (fixture_library (with_capabilities 0 no_ports_capabilities))
           Sysfs 0 1%positive 4096 no_ports_capabilities H eq_refl).
Defined.

Lemma capabilities_failure_returned_witness :
  In (capabilities_answer (- EIO) no_ports_capabilities) no_caps /\
  - EIO <> 0 /\
  exists r,
    no_caps
    = [Event (call_new (backend_type Sysfs 0)) (res_typec r 4096);
       capabilities_answer (- EIO) no_ports_capabilities] /\
    outcome (fixture_library (with_capabilities (- EIO) no_ports_capabilities))
            Sysfs 0 1%positive = Returned (- EIO).
Proof.
  assert (H : In (capabilities_answer (- EIO) no_ports_capabilities) no_caps)
    by (apply (nth_error_In no_caps 1); vm_compute; reflexivity).
  assert (Hne : - EIO <> 0) by (unfold EIO; lia).
  split; [exact H |]. split; [exact Hne |].
  exact (capabilities_failure_returned
           (fixture_library (with_capabilities (- EIO) no_ports_capabilities))
           Sysfs 0 1%positive 4096 (- EIO) no_ports_capabilities H Hne).
Defined.

Lemma returned_code_is_last_status_witness :
  fixture_outcome broken_transport = Returned (- EIO) /\
  - EIO <> 0 /\
  exists pre e, fixture_trace broken_transport = pre ++ [e] /\ ev_ret e = Some (- EIO).
Proof.
  unfold fixture_trace, fixture_outcome.
  assert (H : outcome (fixture_library broken_transport) Sysfs 0 1%positive
              = Returned (- EIO)) by (vm_compute; reflexivity).
  assert (Hne : - EIO <> 0) by (unfold EIO; lia).
  split; [exact H |]. split; [exact Hne |].
  exact (returned_code_is_last_status
           (fixture_library broken_transport) Sysfs 0 1%positive (- EIO) H Hne).
Defined.

Lemma session_destroy_is_last_witness :
  fixture_trace two_ports = firstn 34 (fixture_trace two_ports) ++ session_destroyed :: [] /\
  ev_call session_destroyed = call_destroy 4096 /\
  [] = @nil event /\
  forall e' h', In e' (firstn 34 (fixture_trace two_ports)) -> ev_call e' <> call_destroy h'.
Proof.
  unfold fixture_trace.
  assert (H : ports = firstn 34 ports ++ session_destroyed :: [])
    by (vm_compute; reflexivity).
  split; [exact H |]. split; [reflexivity |].
  exact (session_destroy_is_last
           (fixture_library two_ports) Sysfs 0 1%positive
           (firstn 34 ports) session_destroyed [] 4096 H eq_refl).
Defined.

Lemma every_call_on_the_session_handle_witness :
  fst (libtypec_rs_new (fixture_library two_ports) (backend_type Sysfs 0) 1%positive)
  = (0, 4096) /\
  In cable_identity (fixture_trace two_ports) /\
  handle_of (ev_call cable_identity) = Some 4096 /\
  4096 = 4096.
Proof.
  unfold fixture_trace.
  assert (H : In cable_identity ports)
    by (apply (nth_error_In ports 26); vm_compute; reflexivity).
  split; [reflexivity |]. split; [exact H |]. split; [reflexivity |].
  exact (every_call_on_the_session_handle
           (fixture_library two_ports) Sysfs 0 1%positive 0 4096 cable_identity 4096
           eq_refl H eq_refl).
Defined.

Lemma destroy_pdos_never_null_witness :
  In first_buffer_destroyed (fixture_trace two_ports) /\
  ev_call first_buffer_destroyed = call_destroy_pdos first_buffer /\
  buf_ptr first_buffer <> NULL.
Proof.
  unfold fixture_trace.
  assert (H : In first_buffer_destroyed ports)
    by (apply (nth_error_In ports 4); vm_compute; reflexivity).
  split; [exact H |]. split; [reflexivity |].
  exact (destroy_pdos_never_null
           (fixture_library two_ports) Sysfs 0 1%positive
           first_buffer_destroyed first_buffer H eq_refl).
Defined.

Lemma destroy_alternate_modes_follows_query_witness :
  fixture_trace two_ports
  = firstn 8 (fixture_trace two_ports)
    ++ second_buffer_destroyed :: skipn 9 (fixture_trace two_ports) /\
  ev_call second_buffer_destroyed = call_destroy_alternate_modes second_buffer /\
  exists pre' g,
    firstn 8 (fixture_trace two_ports) = pre' ++ [g] /\
    is_get_alternate_modes (ev_call g) = true /\
    ev_result g = res_modes 0 second_buffer.
Proof.
  unfold fixture_trace.
  assert (H : ports = firstn 8 ports ++ second_buffer_destroyed :: skipn 9 ports)
    by (vm_compute; reflexivity).
  split; [exact H |]. split; [reflexivity |].
  exact (destroy_alternate_modes_follows_query
           (fixture_library two_ports) Sysfs 0 1%positive
           (firstn 8 ports) second_buffer_destroyed (skipn 9 ports) second_buffer
           H eq_refl).
Defined.

Lemma destroy_pd_message_follows_cable_identity_witness :
  fixture_trace two_ports
  = firstn 27 (fixture_trace two_ports)
    ++ cable_identity_destroyed :: skipn 28 (fixture_trace two_ports) /\
  ev_call cable_identity_destroyed = call_destroy_pd_message [4279238656; 0; 1] /\
  exists pre' typec c,
    firstn 27 (fixture_trace two_ports)
    = pre' ++ [Event (call_get_pd_message typec c PdMessageRecipient_SopPrime
                                          PdMessageResponseType_DiscoverIdentity)
                     (res_message 0 [4279238656; 0; 1])].
Proof.
  unfold fixture_trace.
  assert (H : ports = firstn 27 ports ++ cable_identity_destroyed :: skipn 28 ports)
    by (vm_compute; reflexivity).
  split; [exact H |]. split; [reflexivity |].
  exact (destroy_pd_message_follows_cable_identity
           (fixture_library two_ports) Sysfs 0 1%positive
           (firstn 27 ports) cable_identity_destroyed (skipn 28 ports)
           [4279238656; 0; 1] H eq_refl).
Defined.

Lemma cable_identity_released_witness :
  fixture_trace two_ports
  = firstn 26 (fixture_trace two_ports)
    ++ cable_identity :: skipn 27 (fixture_trace two_ports) /\
  exists post',
    skipn 27 (fixture_trace two_ports)
    = Event (call_destroy_pd_message [4279238656; 0; 1]) res_void :: post'.
Proof.
  unfold fixture_trace.
  assert (H : ports = firstn 26 ports ++ cable_identity :: skipn 27 ports)
    by (vm_compute; reflexivity).
  split; [exact H |].
  exact (cable_identity_released
           (fixture_library two_ports) Sysfs 0 1%positive
           (firstn 26 ports) cable_identity (skipn 27 ports)
           4096 1 PdMessageResponseType_DiscoverIdentity [4279238656; 0; 1]
           H eq_refl).
Defined.

Lemma completed_run_covers_schedule_witness :
  In (capabilities_answer 0 two_ports_capabilities) (fixture_trace two_ports) /\
  fixture_outcome two_ports = Returned 0 /\
  0 <= 1 < to_size_t (Z.of_N (num_connectors two_ports_capabilities)) /\
  exists e,
    In e (fixture_trace two_ports) /\
    ev_call e = query_call 4096 two_ports_capabilities 1 PartnerSinkPdos.
Proof.
  unfold fixture_trace, fixture_outcome.
  assert (H : In (capabilities_answer 0 two_ports_capabilities) ports)
    by (apply (nth_error_In ports 1); vm_compute; reflexivity).
  assert (Ho : outcome (fixture_library two_ports) Sysfs 0 1%positive = Returned 0)
    by (vm_compute; reflexivity).
  assert (Hi : 0 <= 1 < to_size_t (Z.of_N (num_connectors two_ports_capabilities)))
    by (vm_compute; split; [discriminate | reflexivity]).
  split; [exact H |]. split; [exact Ho |]. split; [exact Hi |].
  exact (completed_run_covers_schedule
           (fixture_library two_ports) Sysfs 0 1%positive
           4096 two_ports_capabilities 1 PartnerSinkPdos H Ho Hi).
Defined.

Lemma aborted_iff_null_pdos_witness :
  outcome careless_library Sysfs 0 1%positive = Aborted /\
  exists pre e before after,
    careless = pre ++ [e] /\
    is_get_pdos (ev_call e) = true /\
    ev_result e = res_pdos 0 before after /\
    buf_ptr after = NULL.
Proof.
  assert (H : outcome careless_library Sysfs 0 1%positive = Aborted)
    by (vm_compute; reflexivity).
  split; [exact H |].
  exact (proj1 (aborted_iff_null_pdos careless_library Sysfs 0 1%positive) H).
Defined.

Lemma zero_returned_without_fatal_code_witness :
  fixture_outcome two_ports = Returned 0 /\
  In sink_answer (fixture_trace two_ports) /\
  is_query sink_answer = true /\
  ev_ret sink_answer = Some (- ENOTSUP) /\
  tolerated (ev_call sink_answer) (- ENOTSUP).
Proof.
  unfold fixture_trace, fixture_outcome.
  assert (Ho : outcome (fixture_library two_ports) Sysfs 0 1%positive = Returned 0)
    by (vm_compute; reflexivity).
  assert (H : In sink_answer ports)
    by (apply (nth_error_In ports 5); vm_compute; reflexivity).
  split; [exact Ho |]. split; [exact H |]. split; [reflexivity |].
  split; [reflexivity |].
  exact (zero_returned_without_fatal_code
           (fixture_library two_ports) Sysfs 0 1%positive sink_answer (- ENOTSUP)
           Ho H eq_refl eq_refl).
Defined.

Lemma stderr_report_witness :
  fst (libtypec_rs_new careless_library (backend_type Sysfs 0) 1%positive) = (0, 4096) /\
  ((outcome careless_library Sysfs 0 1%positive = Returned 0 /\ 4096 <> NULL /\
    stderr (snd (run careless_library Sysfs 0 1%positive)) = []) \/
   (outcome careless_library Sysfs 0 1%positive = Aborted /\
    stderr (snd (run careless_library Sysfs 0 1%positive)) = [AssertionFailed "out_pdos"]) \/
   (exists fmt args r,
      outcome careless_library Sysfs 0 1%positive = Returned r /\
      (4096 = NULL \/ r <> 0) /\
      stderr (snd (run careless_library Sysfs 0 1%positive)) = [Printed fmt args])).
Proof.
  split; [reflexivity |].
  exact (stderr_report careless_library Sysfs 0 1%positive 0 4096 eq_refl).
Defined.

Lemma pdos_query_inputs_witness :
  fixture_trace two_ports
  = firstn 5 (fixture_trace two_ports) ++ sink_answer :: skipn 6 (fixture_trace two_ports) /\
  sink_answer
  = Event (call_get_pdos 4096 0 false 0 0 UcsiPdoType_Sink
             UcsiPdoSourceCapabilitiesType_CurrentSupportedSourceCapabilities 769)
          (res_pdos (- ENOTSUP) first_buffer first_buffer) /\
  first_buffer = pdos_left no_buf (firstn 5 (fixture_trace two_ports)).
Proof.
  unfold fixture_trace.
  assert (H : ports = firstn 5 ports ++ sink_answer :: skipn 6 ports)
    by (vm_compute; reflexivity).
  split; [exact H |]. split; [reflexivity |].
  exact (pdos_query_inputs
           (fixture_library two_ports) Sysfs 0 1%positive
           (firstn 5 ports) sink_answer (skipn 6 ports)
           4096 0 false 0 0 UcsiPdoType_Sink
           UcsiPdoSourceCapabilitiesType_CurrentSupportedSourceCapabilities 769
           (- ENOTSUP) first_buffer first_buffer H eq_refl).
Defined.
